(** * Cosine-similarity calculator: vector parser, similarity routine and
      chart projector

    The development embeds [src/utils/mathUtils.ts] (the parser
    [parseVectorString] and the routine [calculateCosineSimilarity]) and the
    geometric part of [src/components/VectorChart.tsx] (the 2D scale and
    [getCoord], the 3D rotation state driven by mouse events).

    JavaScript numbers are IEEE 754 binary64 values; they are modelled by
    Rocq's primitive [float], whose operations are the binary64 ones
    (round to nearest, ties to even).  JavaScript strings are sequences of
    UTF-16 code units. *)

From Stdlib Require Import ZArith NArith Bool Lia Floats Ascii String List.
From Stdlib Require DecimalString.
Import ListNotations.

(** [length] is the length of lists throughout. *)
Abbreviation length := Datatypes.length.

(* ===================================================================== *)
(** * Part I: definitions                                                *)
(* ===================================================================== *)

(** ** JavaScript numbers and the [Math] object *)

Module JS.

Definition number := float.

(** [x === y] on numbers: IEEE equality ([NaN] differs from itself, the two
    zeros are equal). *)
Definition strict_eq (x y : number) : bool := PrimFloat.eqb x y.

Definition isNaN (x : number) : bool := PrimFloat.is_nan x.

Definition is_pos_zero (x : number) : bool :=
  match PrimFloat.classify x with PZero => true | _ => false end.

Definition is_neg_zero (x : number) : bool :=
  match PrimFloat.classify x with NZero => true | _ => false end.

(** [Math.max(...)], ECMAScript 21.3.2.24: the scan starts from -Infinity,
    a NaN argument makes the result NaN, and +0 is larger than -0.
    [max_step] is the scan at a number that is not NaN. *)
Definition max_step (highest n : number) : number :=
  let highest :=
    if is_pos_zero n && is_neg_zero highest then PrimFloat.zero
    else highest in
  if PrimFloat.ltb highest n then n else highest.

Fixpoint Math_max_from (highest : number) (coerced : list number) : number :=
  match coerced with
  | [] => highest
  | n :: rest =>
      if isNaN n then PrimFloat.nan
      else Math_max_from (max_step highest n) rest
  end.

Definition Math_max (args : list number) : number :=
  Math_max_from PrimFloat.neg_infinity args.

(** [Math.min(...)], ECMAScript 21.3.2.25: from +Infinity, with -0 smaller
    than +0. *)
Definition min_step (lowest n : number) : number :=
  let lowest :=
    if is_neg_zero n && is_pos_zero lowest then PrimFloat.neg_zero
    else lowest in
  if PrimFloat.ltb n lowest then n else lowest.

Fixpoint Math_min_from (lowest : number) (coerced : list number) : number :=
  match coerced with
  | [] => lowest
  | n :: rest =>
      if isNaN n then PrimFloat.nan
      else Math_min_from (min_step lowest n) rest
  end.

Definition Math_min (args : list number) : number :=
  Math_min_from PrimFloat.infinity args.

Definition Math_abs (x : number) : number := PrimFloat.abs x.

(** [Math.sqrt]: the binary64 square root. *)
Definition Math_sqrt (x : number) : number := PrimFloat.sqrt x.

(** [Math.PI]: the binary64 value nearest to pi, 3.141592653589793. *)
Definition Math_PI : number := 0x1.921fb54442d18p+1%float.

(** The part of [Math] that ECMAScript leaves implementation-approximated:
    the development is parametric in [Math.acos]. *)
Class MathLib := { Math_acos : number -> number }.

(** [a[i]] on an array of numbers used in arithmetic: a read past the end
    yields [undefined], which arithmetic coerces to NaN. *)
Definition index (a : list number) (i : nat) : number := nth i a PrimFloat.nan.

End JS.

(** ** JavaScript strings, [String.prototype.split] on [/[\s,]+/],
       [String.prototype.trim] and [parseFloat] *)

Module JSString.
Import JS.
Local Open Scope N_scope.

(** A string is its sequence of UTF-16 code units. *)
Definition code_unit := N.
Definition jsstring := list code_unit.

(** An ASCII literal as a JavaScript string. *)
Definition lit (s : String.string) : jsstring :=
  map N_of_ascii (String.list_ascii_of_string s).

(** WhiteSpace and LineTerminator code points (ECMAScript 12.2 and 12.3):
    what the regular expression class [\s] matches and what [trim] and
    [parseFloat] strip.  All of them are single code units. *)
Definition is_whitespace (c : code_unit) : bool :=
  (c =? 0x9) || (c =? 0xA) || (c =? 0xB) || (c =? 0xC) || (c =? 0xD)
  || (c =? 0x20) || (c =? 0xA0) || (c =? 0x1680)
  || ((0x2000 <=? c) && (c <=? 0x200A))
  || (c =? 0x2028) || (c =? 0x2029) || (c =? 0x202F) || (c =? 0x205F)
  || (c =? 0x3000) || (c =? 0xFEFF).

(** The character class [[\s,]]. *)
Definition is_separator (c : code_unit) : bool :=
  is_whitespace c || (c =? 0x2C).

(** [S.split(/[\s,]+/)]: the substrings between the maximal runs of
    separators.  [field] is the substring collected since the last run (in
    reverse), [in_run] tells whether the previous code unit was a separator.
    A run at the very start or end leaves an empty first or last substring,
    and the empty string splits into one empty substring. *)
Fixpoint split_from (field : jsstring) (in_run : bool) (s : jsstring)
  : list jsstring :=
  match s with
  | [] => [rev field]
  | c :: s' =>
      if is_separator c then
        if in_run then split_from [] true s'
        else rev field :: split_from [] true s'
      else split_from (c :: field) false s'
  end.

Definition split_separators (s : jsstring) : list jsstring :=
  split_from [] false s.

(** [trim]: strip white space and line terminators at both ends. *)
Fixpoint trim_start (s : jsstring) : jsstring :=
  match s with
  | c :: s' => if is_whitespace c then trim_start s' else s
  | [] => []
  end.

Definition trim_end (s : jsstring) : jsstring := rev (trim_start (rev s)).

Definition trim (s : jsstring) : jsstring := trim_end (trim_start s).

(** *** [parseFloat] (ECMAScript 19.2.4)

    The argument is stripped of leading white space; the longest prefix that
    is a [StrDecimalLiteral] is converted, and the result is NaN when no
    prefix is one. *)

Definition is_digit (c : code_unit) : bool := (0x30 <=? c) && (c <=? 0x39).

Definition digit_value (c : code_unit) : Z := (Z.of_N c - 0x30)%Z.

(** The longest prefix of decimal digits, and the rest. *)
Fixpoint span_digits (s : jsstring) : jsstring * jsstring :=
  match s with
  | c :: s' =>
      if is_digit c then let '(d, r) := span_digits s' in (c :: d, r)
      else ([], s)
  | [] => ([], [])
  end.

(** The mathematical value of a sequence of decimal digits. *)
Definition digits_value (d : jsstring) : Z :=
  fold_left (fun acc c => (10 * acc + digit_value c)%Z) d 0%Z.

Fixpoint starts_with (p s : jsstring) : bool :=
  match p, s with
  | [], _ => true
  | a :: p', b :: s' => (a =? b) && starts_with p' s'
  | _ :: _, [] => false
  end.

(** A parsed [StrDecimalLiteral]: an infinity, or the decimal
    [(-1)^neg * mant * 10^exp]. *)
Inductive literal :=
  | LitInfinity (neg : bool)
  | LitDecimal (neg : bool) (mant : Z) (exp : Z).

(** An optional sign. *)
Definition take_sign (s : jsstring) : bool * jsstring :=
  match s with
  | c :: s' =>
      if c =? 0x2B then (false, s') else if c =? 0x2D then (true, s')
      else (false, s)
  | [] => (false, s)
  end.

(** [ExponentPart_opt]: the exponent when [e] or [E], an optional sign and
    at least one digit follow, and 0 otherwise (the prefix then ends before
    the exponent indicator). *)
Definition parse_exponent (s : jsstring) : Z :=
  match s with
  | c :: s1 =>
      if (c =? 0x65) || (c =? 0x45) then
        let '(neg, s2) := take_sign s1 in
        let '(d, _) := span_digits s2 in
        match d with
        | [] => 0%Z
        | _ => if neg then (- digits_value d)%Z else digits_value d
        end
      else 0%Z
  | [] => 0%Z
  end.

(** [StrUnsignedDecimalLiteral]: [Infinity], digits with an optional
    fraction and exponent, or a fraction that starts with the point. *)
Definition parse_unsigned (neg : bool) (s : jsstring) : option literal :=
  if starts_with (lit "Infinity"%string) s then Some (LitInfinity neg)
  else
    let '(ip, s1) := span_digits s in
    match s1 with
    | c :: s2 =>
        if c =? 0x2E then
          let '(fp, s3) := span_digits s2 in
          match ip, fp with
          | [], [] => None
          | _, _ =>
              Some (LitDecimal neg (digits_value (ip ++ fp))
                      (parse_exponent s3 - Z.of_nat (length fp)))
          end
        else
          match ip with
          | [] => None
          | _ => Some (LitDecimal neg (digits_value ip) (parse_exponent s1))
          end
    | [] =>
        match ip with
        | [] => None
        | _ => Some (LitDecimal neg (digits_value ip) 0%Z)
        end
    end.

(** The binary64 value nearest to [mant * 10^exp] for [mant > 0], ties to
    even: the quotient of the two integers [mant * 10^max(exp,0)] and
    [10^max(-exp,0)] with the position of the remainder, rounded once. *)
Definition round_decimal (mant exp : Z) : spec_float :=
  let num := (mant * 10 ^ Z.max exp 0)%Z in
  let den := (10 ^ Z.max (- exp) 0)%Z in
  let '(q, e, l) := SFdiv_core_binary prec emax num 0 den 0 in
  binary_round_aux prec emax false q e l.

(** [StringNumericValue]: the magnitude is rounded, then the sign applied
    (so that [-0] is the negative zero). *)
Definition literal_value (l : literal) : number :=
  match l with
  | LitInfinity neg =>
      if neg then PrimFloat.neg_infinity else PrimFloat.infinity
  | LitDecimal neg mant exp =>
      let a := if (mant =? 0)%Z then PrimFloat.zero
               else SF2Prim (round_decimal mant exp) in
      if neg then PrimFloat.opp a else a
  end.

Definition parseFloat (s : jsstring) : number :=
  let '(neg, u) := take_sign (trim_start s) in
  match parse_unsigned neg u with
  | Some l => literal_value l
  | None => PrimFloat.nan
  end.

End JSString.

(** ** [src/utils/mathUtils.ts] *)

Module MathUtils.
Import JS JSString.
Local Open Scope float_scope.

Definition parseVectorString (input : jsstring) : list number :=
  filter (fun n => negb (isNaN n))
    (map (fun s => parseFloat (trim s)) (split_separators input)).

(** [VectorResult] of [types.ts]. *)
Record VectorResult := {
  dotProduct : number;
  magnitudeA : number;
  magnitudeB : number;
  cosineSimilarity : number;
  angleDegrees : number;
  dimensions : nat
}.

(** The three accumulators of the loop. *)
Record Sums := { accDot : number; accSqA : number; accSqB : number }.

(** One iteration of the loop body at index [i]. *)
Definition loop_body (vecA vecB : list number) (i : nat) (s : Sums) : Sums :=
  {| accDot := accDot s + index vecA i * index vecB i;
     accSqA := accSqA s + index vecA i * index vecA i;
     accSqB := accSqB s + index vecB i * index vecB i |}.

(** [for (let i = ...; i < vecA.length; i++)] with [remaining] iterations
    to go. *)
Fixpoint for_loop (vecA vecB : list number) (remaining i : nat) (s : Sums)
  : Sums :=
  match remaining with
  | O => s
  | S remaining' =>
      for_loop vecA vecB remaining' (S i) (loop_body vecA vecB i s)
  end.

(** [Math.max(-1, Math.min(1, x))]. *)
Definition clamp_unit (x : number) : number :=
  Math_max [(-1)%float; Math_min [1%float; x]].

(** The statements after the loop: the magnitudes, the zero-magnitude guard
    and the clamped quotient. *)
Definition result_of_sums `{MathLib} (s : Sums) (len : nat) : VectorResult :=
  let dotProduct := accDot s in
  let magnitudeA := Math_sqrt (accSqA s) in
  let magnitudeB := Math_sqrt (accSqB s) in
  if strict_eq magnitudeA 0 || strict_eq magnitudeB 0 then
    {| dotProduct := dotProduct;
       magnitudeA := magnitudeA;
       magnitudeB := magnitudeB;
       cosineSimilarity := 0;
       angleDegrees := 0;
       dimensions := len |}
  else
    let cosineSimilarity := dotProduct / (magnitudeA * magnitudeB) in
    let clampedSimilarity := clamp_unit cosineSimilarity in
    let angleRadians := Math_acos clampedSimilarity in
    let angleDegrees := angleRadians * (180 / Math_PI) in
    {| dotProduct := dotProduct;
       magnitudeA := magnitudeA;
       magnitudeB := magnitudeB;
       cosineSimilarity := clampedSimilarity;
       angleDegrees := angleDegrees;
       dimensions := len |}.

Definition initial_sums : Sums := {| accDot := 0; accSqA := 0; accSqB := 0 |}.

(** The guard of the first statement: an empty vector or two lengths that
    differ. *)
Definition rejects (vecA vecB : list number) : bool :=
  (length vecA =? 0)%nat || (length vecB =? 0)%nat
  || negb (length vecA =? length vecB)%nat.

(** [null] is [None]. *)
Definition calculateCosineSimilarity `{MathLib} (vecA vecB : list number)
  : option VectorResult :=
  if rejects vecA vecB then None
  else
    Some (result_of_sums (for_loop vecA vecB (length vecA) 0 initial_sums)
            (length vecA)).

(** *** The loop as a [while] with a step budget

    The same routine with the loop run as written, testing
    [i < vecA.length] before each iteration; the outer [None] means that the
    budget ran out before the loop ended. *)
Fixpoint while_loop (fuel : nat) (vecA vecB : list number) (i : nat) (s : Sums)
  : option Sums :=
  match fuel with
  | O => None
  | S fuel' =>
      if (i <? length vecA)%nat
      then while_loop fuel' vecA vecB (S i) (loop_body vecA vecB i s)
      else Some s
  end.

Definition calculateCosineSimilarity_run `{MathLib} (fuel : nat)
  (vecA vecB : list number) : option (option VectorResult) :=
  if rejects vecA vecB then Some None
  else
    match while_loop fuel vecA vecB 0 initial_sums with
    | Some s => Some (Some (result_of_sums s (length vecA)))
    | None => None
    end.

(** *** What the contract of the routine is written with *)

(** The sum of a list of numbers, accumulated from 0 from left to right. *)
Definition sum (l : list number) : number := fold_left PrimFloat.add l 0.

Fixpoint products (a b : list number) : list number :=
  match a, b with
  | x :: a', y :: b' => x * y :: products a' b'
  | _, _ => []
  end.

Definition dot (a b : list number) : number := sum (products a b).

Definition magnitude (a : list number) : number := Math_sqrt (dot a a).

End MathUtils.

(** ** Arrays on a heap: the two functions as the effects they have

    Arrays are objects: the routine receives two references and the parser
    returns a fresh one.  A heap is the list of the arrays allocated so far,
    a reference is a position in it. *)

Module Heap.
Import JS JSString MathUtils.
Local Open Scope float_scope.

Inductive cell :=
  | Strings (l : list jsstring)
  | Numbers (l : list number).

Definition ref := nat.
Definition heap := list cell.

(** Computations that read and extend the heap. *)
Definition M (A : Type) : Type := heap -> A * heap.

Definition ret {A} (a : A) : M A := fun h => (a, h).

Definition bind {A B} (m : M A) (k : A -> M B) : M B :=
  fun h => let '(a, h') := m h in k a h'.

Notation "x <- m ;; k" := (bind m (fun x => k))
  (at level 61, m at next level, right associativity).

(** The numbers of the array at [r] (no numbers when [r] is no such
    array). *)
Definition numbers_at (h : heap) (r : ref) : list number :=
  match nth_error h r with
  | Some (Numbers l) => l
  | _ => []
  end.

Definition strings_at (h : heap) (r : ref) : list jsstring :=
  match nth_error h r with
  | Some (Strings l) => l
  | _ => []
  end.

(** [a.length] and [a[i]]. *)
Definition get_length (r : ref) : M nat :=
  fun h => (length (numbers_at h r), h).

Definition get_index (r : ref) (i : nat) : M number :=
  fun h => (index (numbers_at h r) i, h).

Definition get_strings (r : ref) : M (list jsstring) :=
  fun h => (strings_at h r, h).

Definition get_numbers (r : ref) : M (list number) :=
  fun h => (numbers_at h r, h).

(** A new array, at the next free position. *)
Definition alloc (c : cell) : M ref := fun h => (length h, h ++ [c]).

Fixpoint for_loop (vecA vecB : ref) (remaining i : nat) (s : Sums) : M Sums :=
  match remaining with
  | O => ret s
  | S remaining' =>
      a <- get_index vecA i ;;
      b <- get_index vecB i ;;
      for_loop vecA vecB remaining' (S i)
        {| accDot := accDot s + a * b;
           accSqA := accSqA s + a * a;
           accSqB := accSqB s + b * b |}
  end.

Definition calculateCosineSimilarity `{MathLib} (vecA vecB : ref)
  : M (option VectorResult) :=
  lenA <- get_length vecA ;;
  lenB <- get_length vecB ;;
  if (lenA =? 0)%nat || (lenB =? 0)%nat || negb (lenA =? lenB)%nat
  then ret None
  else
    s <- for_loop vecA vecB lenA 0 initial_sums ;;
    ret (Some (result_of_sums s lenA)).

(** [split], [map] and [filter] each return a new array. *)
Definition parseVectorString (input : jsstring) : M ref :=
  r1 <- alloc (Strings (split_separators input)) ;;
  tokens <- get_strings r1 ;;
  r2 <- alloc (Numbers (map (fun s => parseFloat (trim s)) tokens)) ;;
  parsed <- get_numbers r2 ;;
  alloc (Numbers (filter (fun n => negb (isNaN n)) parsed)).

End Heap.

(** ** [src/components/VectorChart.tsx]: the 2D scale and the rotation
       state of the 3D view *)

Module VectorChart.
Import JS.
Local Open Scope float_scope.

(** *** 2D view *)

Definition size : number := 300.
Definition center : number := size / 2.

(** [1.2] is the binary64 value [0x1.3333333333333p+0]. *)
Definition maxVal (vecA vecB : list number) : number :=
  Math_max [Math_abs (index vecA 0); Math_abs (index vecA 1);
            Math_abs (index vecB 0); Math_abs (index vecB 1);
            1] * 0x1.3333333333333p+0.

Definition scale (vecA vecB : list number) : number :=
  (center - 20) / maxVal vecA vecB.

Record Coord := { x : number; y : number }.

Definition getCoord (vecA vecB : list number) (px py : number) : Coord :=
  {| x := center + px * scale vecA vecB;
     y := center - py * scale vecA vecB |}.

(** *** 3D view: rotation state and mouse handlers *)

(** [rotation]: [x] is the pitch and [y] the yaw, in degrees. *)
Record Rotation := { pitch : number; yaw : number }.

Record MouseEvent := { clientX : number; clientY : number }.

(** The component state the handlers use: [rotation], [isDragging] and the
    [lastMousePos] ref. *)
Record State := {
  rotation : Rotation;
  isDragging : bool;
  lastMousePos : MouseEvent
}.

Definition initial : State :=
  {| rotation := {| pitch := -20; yaw := 45 |};
     isDragging := false;
     lastMousePos := {| clientX := 0; clientY := 0 |} |}.

Definition handleMouseDown (e : MouseEvent) (st : State) : State :=
  {| rotation := rotation st; isDragging := true; lastMousePos := e |}.

(** The updater handed to [setRotation]. *)
Definition rotate (deltaX deltaY : number) (prev : Rotation) : Rotation :=
  {| pitch := Math_max [-90; Math_min [90; pitch prev + deltaY * 0.5]];
     yaw := yaw prev + deltaX * 0.5 |}.

Definition handleMouseMove (e : MouseEvent) (st : State) : State :=
  if negb (isDragging st) then st
  else
    let deltaX := clientX e - clientX (lastMousePos st) in
    let deltaY := clientY e - clientY (lastMousePos st) in
    {| rotation := rotate deltaX deltaY (rotation st);
       isDragging := isDragging st;
       lastMousePos := e |}.

Definition handleMouseUp (st : State) : State :=
  {| rotation := rotation st;
     isDragging := false;
     lastMousePos := lastMousePos st |}.

(** The events the view listens to; [onMouseLeave] runs [handleMouseUp]. *)
Inductive Event :=
  | MouseDown (e : MouseEvent)
  | MouseMove (e : MouseEvent)
  | MouseUp
  | MouseLeave.

Definition step (st : State) (ev : Event) : State :=
  match ev with
  | MouseDown e => handleMouseDown e st
  | MouseMove e => handleMouseMove e st
  | MouseUp => handleMouseUp st
  | MouseLeave => handleMouseUp st
  end.

Definition run (evs : list Event) : State := fold_left step evs initial.

(** The coordinates of a DOM mouse event are finite numbers (the IDL type
    [double] excludes NaN and the infinities). *)
Definition finite_mouse (e : MouseEvent) : bool :=
  PrimFloat.is_finite (clientX e) && PrimFloat.is_finite (clientY e).

Definition finite_event (ev : Event) : bool :=
  match ev with
  | MouseDown e | MouseMove e => finite_mouse e
  | MouseUp | MouseLeave => true
  end.

End VectorChart.

(** ** Notions the statements are written with *)

(** The tokens of a string and what ends the digits of a token. *)

Module Tokens.
Import JSString.

(** The tokens of a string, in the words of the contract: the maximal runs
    of code units that are no separators, in order.  [tok] is the run being
    read, in reverse. *)
Definition emit (tok : jsstring) (l : list jsstring) : list jsstring :=
  match tok with
  | [] => l
  | _ => rev tok :: l
  end.

Fixpoint tokens_from (tok : jsstring) (s : jsstring) : list jsstring :=
  match s with
  | [] => emit tok []
  | c :: s' =>
      if is_separator c then emit tok (tokens_from [] s')
      else tokens_from (c :: tok) s'
  end.

Definition tokens (s : jsstring) : list jsstring := tokens_from [] s.

Definition nonempty (t : jsstring) : bool :=
  match t with [] => false | _ => true end.

Definition separator_free (t : jsstring) : bool :=
  forallb (fun c => negb (is_separator c)) t.

(** What may follow the digits of a token for the digits alone to be the
    numeric prefix: nothing, or a code unit that is no digit, point or
    exponent indicator. *)
Definition ends_number (rest : jsstring) : bool :=
  match rest with
  | [] => true
  | c :: _ =>
      negb (is_digit c || (c =? 0x2E)%N || (c =? 0x65)%N || (c =? 0x45)%N)
  end.

(** Where a [StrDecimalLiteral] can start: at [Infinity], at a digit, or at
    a point that a digit follows. *)
Definition numeric_start (u : jsstring) : bool :=
  starts_with (lit "Infinity") u
  || match u with
     | c :: r =>
         is_digit c
         || ((c =? 0x2E)%N
             && match r with d :: _ => is_digit d | [] => false end)
     | [] => false
     end.

(** A token has a numeric prefix when, after leading white space and an
    optional sign, a literal can start. *)
Definition has_numeric_prefix (t : jsstring) : bool :=
  numeric_start (snd (take_sign (trim_start t))).

End Tokens.

Section Notions.
Import JS VectorChart.
Local Open Scope float_scope.

(** [lo] below [lo], [hi] above [hi], and the number itself in between (NaN
    for NaN). *)
Definition clamp_between (lo hi x : number) : number :=
  if x <? lo then lo else if hi <? x then hi else x.

(** The zeros and the finite numbers other than zero. *)
Definition SFfinite (x : spec_float) : bool :=
  match x with
  | S754_zero _ | S754_finite _ _ _ => true
  | _ => false
  end.

Definition all_finite (l : list number) : Prop :=
  Forall (fun n => is_finite n = true) l.

(** A normal number that is at least 1. *)
Definition normal_ge_one (x : spec_float) : Prop :=
  exists (m : positive) (e : Z),
    x = S754_finite false m e
    /\ Z.pos (digits2_pos m) = 53%Z /\ (-52 <= e <= 971)%Z.

(** A [Math.acos] that is right at the two arguments with an exact result
    in binary64 terms, [acos(1) = 0] and [acos(0) = pi/2] rounded, and says
    NaN elsewhere; it instantiates the statements that assume such values. *)
Definition acos_at_0_and_1 : MathLib :=
  {| Math_acos := fun x =>
       if PrimFloat.eqb x 0 then 0x1.921fb54442d18p+0
       else if PrimFloat.eqb x 1 then 0
       else PrimFloat.nan |}.

(** 1e200 and 1.6e308, the binary64 values that the literals denote. *)
Definition ten_to_200 : number := 0x1.4e718d7d7625ap+664.


Definition sixteen_to_307 : number := 0x1.c7b1f3cac7433p+1023.

(** The pitch of a state is within [-90, 90]. *)
Definition pitch_in_range (st : State) : Prop :=
  (-90 <=? pitch (rotation st)) = true /\ (pitch (rotation st) <=? 90) = true.

Definition finite_events (evs : list Event) : Prop :=
  Forall (fun ev => finite_event ev = true) evs.

(** What every handler preserves: the pitch is in range and the last mouse
    position is finite. *)
Definition rotation_invariant (st : State) : Prop :=
  pitch_in_range st /\ finite_mouse (lastMousePos st) = true.

(** The largest finite number. *)
Definition max_value : number := 0x1.fffffffffffffp+1023.

(** A drag across the whole range of finite coordinates: the yaw it leaves
    is [infinity]. *)
Definition wide_drag : list Event :=
  [MouseDown {| clientX := - max_value; clientY := 0 |};
   MouseMove {| clientX := max_value; clientY := 0 |}].

End Notions.

(** ** [App.tsx]: input normalisation, the calculate handler and the
       similarity badge *)

Module App.
Import JS JSString MathUtils.
Local Open Scope N_scope.

(** *** [handleVectorInputChange] *)

(** The length of the white space that [s] starts with: what [\s+] takes. *)
Fixpoint whitespace_run (s : jsstring) : nat :=
  match s with
  | c :: s' => if is_whitespace c then S (whitespace_run s') else O
  | [] => O
  end.

(** The lookahead [(?=\d)] after the white space that [s] starts with. *)
Definition digit_follows (s : jsstring) : bool :=
  match nth_error s (whitespace_run s) with
  | Some d => is_digit d
  | None => false
  end.

Definition comma_space : jsstring := [0x2C; 0x20].

(** [value.replace(/(\d)\s+(?=\d)/g, '$1, ')], from left to right: a digit,
    the white space after it and a digit ahead make a match, which is
    replaced by the digit, a comma and a space; the search goes on after the
    white space.  [skip] counts the code units of the last match that are
    still to be dropped. *)
Fixpoint insert_commas (skip : nat) (s : jsstring) : jsstring :=
  match s with
  | [] => []
  | c :: s' =>
      match skip with
      | S skip' => insert_commas skip' s'
      | O =>
          if is_digit c && (0 <? whitespace_run s')%nat && digit_follows s'
          then c :: comma_space ++ insert_commas (whitespace_run s') s'
          else c :: insert_commas O s'
      end
  end.

(** [if (value.endsWith(' ') && /\d$/.test(value.slice(0, -1)))
     value = value.slice(0, -1) + ', '] *)
Definition replace_trailing_space (value : jsstring) : jsstring :=
  match rev value with
  | sp :: d :: _ =>
      if (sp =? 0x20) && is_digit d then removelast value ++ comma_space
      else value
  | _ => value
  end.

(** The string handed to [setVecInput]. *)
Definition handleVectorInputChange (value : jsstring) : jsstring :=
  replace_trailing_space (insert_commas O value).

(** *** [handleCalculate] *)

(** The state that the handler reads and writes. *)
Record State := {
  vecA : list number;
  vecB : list number;
  result : option VectorResult;
  error : option jsstring;
  explanation : option jsstring
}.

(** A length in a template literal: its decimal digits. *)
Definition length_to_string (n : nat) : jsstring :=
  lit (DecimalString.NilEmpty.string_of_uint (Nat.to_uint n)).

Definition mismatch_message (a b : nat) : jsstring :=
  lit "Dimension mismatch: Vector A has " ++ length_to_string a
  ++ lit " dims, Vector B has " ++ length_to_string b ++ lit " dims.".

Definition empty_message : jsstring := lit "Vectors cannot be empty.".

(** [handleCalculate] is made by [useCallback] with the dependencies [vecA]
    and [vecB]: it is a closure that reads the vectors of the render that
    made it, [render], while its setters write to the state that is current
    when it runs, [st]. *)
Definition handleCalculate `{MathLib} (render st : State) : State :=
  if negb (length (vecA render) =? length (vecB render))%nat then
    {| vecA := vecA st; vecB := vecB st;
       result := None;
       error := Some (mismatch_message (length (vecA render))
                        (length (vecB render)));
       explanation := explanation st |}
  else if (length (vecA render) =? 0)%nat then
    {| vecA := vecA st; vecB := vecB st;
       result := None;
       error := Some empty_message;
       explanation := explanation st |}
  else
    {| vecA := vecA st; vecB := vecB st;
       result := calculateCosineSimilarity (vecA render) (vecB render);
       error := None;
       explanation := None |}.

(** [onClick={handleCalculate}]: the button runs the handler of the render
    that shows the current state. *)
Definition onClick `{MathLib} (st : State) : State := handleCalculate st st.

(** The effect that runs when an input string changes. *)
Definition parseInputs (inputA inputB : jsstring) (st : State) : State :=
  {| vecA := parseVectorString inputA;
     vecB := parseVectorString inputB;
     result := result st;
     error := None;
     explanation := explanation st |}.

(** The state of the first render: [useState([])] for the two vectors and
    [useState(null)] for the result, the error and the explanation. *)
Definition initial : State :=
  {| vecA := []; vecB := []; result := None; error := None;
     explanation := None |}.

(** The texts of the two input fields at the first render. *)
Definition inputA_initial : jsstring := lit "2, 1".
Definition inputB_initial : jsstring := lit "1, 3".

(** The state after mounting.  The effects of the first render run in turn:
    the parse effect stores the vectors of the two texts, and the mount
    effect, whose dependencies are [[]], sets the timer that calls the
    [handleCalculate] of the first render. *)
Definition mounted `{MathLib} : State :=
  handleCalculate initial (parseInputs inputA_initial inputB_initial initial).

(** *** The badge of the score card

    [a > b] on numbers is [b < a], false when one of them is NaN. *)
Definition gt (a b : number) : bool := PrimFloat.ltb b a.

(** 0.9 and 0.7 as binary64 values. *)
Definition nine_tenths : number := 0x1.ccccccccccccdp-1%float.
Definition seven_tenths : number := 0x1.6666666666666p-1%float.

Definition barColor (cosineSimilarity : number) : jsstring :=
  if gt cosineSimilarity seven_tenths then lit "bg-green-500"
  else if gt cosineSimilarity 0%float then lit "bg-blue-500"
  else lit "bg-red-500".

Definition badgeColor (cosineSimilarity : number) : jsstring :=
  if gt cosineSimilarity nine_tenths then lit "bg-green-100 text-green-700"
  else if gt cosineSimilarity 0.5%float then lit "bg-blue-100 text-blue-700"
  else if gt cosineSimilarity 0%float then lit "bg-yellow-100 text-yellow-700"
  else lit "bg-red-100 text-red-700".

Definition badgeLabel (cosineSimilarity : number) : jsstring :=
  if gt cosineSimilarity nine_tenths then lit "Very Similar"
  else if gt cosineSimilarity 0.5%float then lit "Similar"
  else if gt cosineSimilarity 0%float then lit "Weakly Related"
  else lit "Opposite / Unrelated".

End App.

(** ** [VectorChart.tsx]: the 3D view *)

Module VectorChart3D.
Import JS VectorChart.
Local Open Scope float_scope.

Definition size : number := 320.
Definition center : number := size / 2.

(** [Math.max(...vecA.map(Math.abs), ...vecB.map(Math.abs), 5) * 1.5] *)
Definition maxVal (vecA vecB : list number) : number :=
  Math_max (map Math_abs vecA ++ map Math_abs vecB ++ [5]) * 1.5.

Definition scale (vecA vecB : list number) : number :=
  (size / 2 - 40) / maxVal vecA vecB.

(** [Math.cos] and [Math.sin] are implementation-approximated. *)
Class TrigLib := { Math_cos : number -> number; Math_sin : number -> number }.

Record Point := { x : number; y : number; z : number }.

Definition project `{TrigLib} (rotation : Rotation) (vecA vecB : list number)
  (px py pz : number) : Point :=
  let radX := pitch rotation * (Math_PI / 180) in
  let radY := yaw rotation * (Math_PI / 180) in
  let x1 := px * Math_cos radY - pz * Math_sin radY in
  let z1 := px * Math_sin radY + pz * Math_cos radY in
  let y2 := py * Math_cos radX - z1 * Math_sin radX in
  let z2 := py * Math_sin radX + z1 * Math_cos radX in
  {| x := center + x1 * scale vecA vecB;
     y := center - y2 * scale vecA vecB;
     z := z2 |}.

End VectorChart3D.

(** ** Notions of the further statements *)

Section FurtherNotions.
Import JS MathUtils.

(** The result with the two vectors in the other order. *)
Definition swap_result (r : VectorResult) : VectorResult :=
  {| dotProduct := dotProduct r;
     magnitudeA := magnitudeB r;
     magnitudeB := magnitudeA r;
     cosineSimilarity := cosineSimilarity r;
     angleDegrees := angleDegrees r;
     dimensions := dimensions r |}.

(** A vector whose components are all zeros, of either sign. *)
Definition zero_vector (a : list number) : Prop :=
  Forall (fun c => PrimFloat.is_zero c = true) a.

End FurtherNotions.

Section FurtherChartNotions.
Import JS VectorChart.

(** No event of the list presses the mouse button. *)
Definition no_press (evs : list Event) : Prop :=
  Forall (fun ev => match ev with MouseDown _ => False | _ => True end) evs.

(** A [Math.cos] and [Math.sin] for the angle 0: the statements that assume
    finite values of the two functions are instantiated with it. *)
Definition trig_at_0 : VectorChart3D.TrigLib :=
  {| VectorChart3D.Math_cos := fun _ => 1%float;
     VectorChart3D.Math_sin := fun _ => 0%float |}.

End FurtherChartNotions.

(** The numbers that a sum of squares can be: +0, a positive finite number
    or +Infinity. *)
Definition SFnonneg (x : spec_float) : bool :=
  match x with
  | S754_zero false | S754_infinity false | S754_finite false _ _ => true
  | _ => false
  end.

(** No component is NaN. *)
Definition all_numbers (l : list JS.number) : Prop :=
  Forall (fun c => JS.isNaN c = false) l.

(** ** [VectorChart.tsx]: the rows of the fallback chart *)

Module Fallback.
Import JS JSString.

(** The values of a row and a row: an object as the list of its own
    properties in the order in which JavaScript enumerates them, the keys
    that are array indices first and in ascending order, then the other keys
    in the order of their creation. *)
Inductive value :=
  | Str (s : jsstring)
  | Num (n : number).















End Fallback.

(** The number of tokens of a string that have a numeric prefix. *)
Definition numeric_tokens (s : JSString.jsstring) : nat :=
  length (filter Tokens.has_numeric_prefix (Tokens.tokens s)).

(* ===================================================================== *)
(** * Part II: properties                                                *)
(* ===================================================================== *)

(** ** Binary64 numbers: comparisons *)

Section FloatFacts.
Local Open Scope float_scope.

Lemma SFcompare_refl (x : spec_float) :
  x <> S754_nan -> SFcompare x x = Some Eq.
Proof.
  destruct x as [s|s| |s m e]; cbn; intros Hx.
  - reflexivity.
  - destruct s; reflexivity.
  - congruence.
  - rewrite Z.compare_refl, Pos.compare_cont_refl. destruct s; reflexivity.
Qed.

Lemma SFcompare_swap (x y : spec_float) :
  SFcompare y x = option_map CompOpp (SFcompare x y).
Proof.
  destruct x as [s|s| |s m e], y as [s'|s'| |s' m' e']; cbn;
    try reflexivity;
    try (destruct s; reflexivity);
    try (destruct s'; reflexivity);
    try (destruct s, s'; reflexivity).
  fold (Pos.compare m m'). fold (Pos.compare m' m).
  rewrite (Z.compare_antisym e e'), (Pos.compare_antisym m m').
  destruct s, s'; cbn; try reflexivity;
    destruct (e ?= e')%Z; cbn; reflexivity.
Qed.

Lemma SFcompare_None (x y : spec_float) :
  SFcompare x y = None <-> x = S754_nan \/ y = S754_nan.
Proof.
  destruct x as [s|s| |s m e], y as [s'|s'| |s' m' e']; cbn;
    split; intros Hc; try discriminate; auto;
    try (destruct Hc; discriminate).
Qed.

Lemma SFcompare_Eq (x y : spec_float) :
  SFcompare x y = Some Eq ->
  x = y \/ (exists s s', x = S754_zero s /\ y = S754_zero s').
Proof.
  destruct x as [s|s| |s m e], y as [s'|s'| |s' m' e']; cbn;
    intros Hc; try discriminate;
    try (destruct s; discriminate); try (destruct s'; discriminate).
  - right. eauto.
  - left. destruct s, s'; try discriminate; reflexivity.
  - left. fold (Pos.compare m m') in Hc.
    destruct s, s'; try discriminate;
      destruct (e ?= e')%Z eqn:Ee; try discriminate;
      destruct (m ?= m')%positive eqn:Em; try discriminate;
      apply Z.compare_eq in Ee; apply Pos.compare_eq in Em;
      subst; reflexivity.
Qed.

Lemma is_nan_spec (x : float) :
  is_nan x = true <-> Prim2SF x = S754_nan.
Proof.
  unfold is_nan. rewrite FloatAxioms.eqb_spec. unfold SFeqb.
  destruct (Prim2SF x) eqn:E.
  - cbn. split; discriminate.
  - rewrite SFcompare_refl by discriminate. cbn. split; discriminate.
  - cbn. split; reflexivity.
  - rewrite SFcompare_refl by discriminate. cbn. split; discriminate.
Qed.

Lemma is_nan_false (x : float) :
  is_nan x = false <-> Prim2SF x <> S754_nan.
Proof.
  rewrite <- is_nan_spec. destruct (is_nan x); split; congruence.
Qed.

Lemma compare_Some (x y : float) :
  is_nan x = false -> is_nan y = false ->
  exists c, SFcompare (Prim2SF x) (Prim2SF y) = Some c.
Proof.
  rewrite !is_nan_false. intros Hx Hy.
  destruct (SFcompare (Prim2SF x) (Prim2SF y)) eqn:E; [eauto|].
  apply SFcompare_None in E. tauto.
Qed.

Lemma ltb_false_leb (x y : float) :
  is_nan x = false -> is_nan y = false ->
  (x <? y) = false -> (y <=? x) = true.
Proof.
  intros Hx Hy. rewrite FloatAxioms.ltb_spec, FloatAxioms.leb_spec. unfold SFltb, SFleb.
  rewrite (SFcompare_swap (Prim2SF x) (Prim2SF y)).
  destruct (compare_Some x y Hx Hy) as [c ->].
  destruct c; cbn; congruence.
Qed.

Lemma ltb_leb (x y : float) : (x <? y) = true -> (x <=? y) = true.
Proof.
  rewrite FloatAxioms.ltb_spec, FloatAxioms.leb_spec. unfold SFltb, SFleb.
  destruct (SFcompare (Prim2SF x) (Prim2SF y)) as [[]|]; congruence.
Qed.

Lemma ltb_leb_swap (x y : float) : (x <? y) = true -> (y <=? x) = false.
Proof.
  rewrite FloatAxioms.ltb_spec, FloatAxioms.leb_spec. unfold SFltb, SFleb.
  rewrite (SFcompare_swap (Prim2SF x) (Prim2SF y)).
  destruct (SFcompare (Prim2SF x) (Prim2SF y)) as [[]|]; cbn; congruence.
Qed.

Lemma leb_refl (x : float) : is_nan x = false -> (x <=? x) = true.
Proof.
  rewrite is_nan_false, FloatAxioms.leb_spec. unfold SFleb. intros Hx.
  rewrite SFcompare_refl by exact Hx. reflexivity.
Qed.

Lemma leb_not_nan (x y : float) :
  (x <=? y) = true -> is_nan x = false /\ is_nan y = false.
Proof.
  rewrite FloatAxioms.leb_spec, !is_nan_false. unfold SFleb.
  destruct (SFcompare (Prim2SF x) (Prim2SF y)) eqn:E; [|discriminate].
  intros _. split; intros Hn.
  - assert (SFcompare (Prim2SF x) (Prim2SF y) = None)
      by (apply SFcompare_None; auto). congruence.
  - assert (SFcompare (Prim2SF x) (Prim2SF y) = None)
      by (apply SFcompare_None; auto). congruence.
Qed.

Lemma ltb_not_nan (x y : float) :
  (x <? y) = true -> is_nan x = false /\ is_nan y = false.
Proof. intros Hl. apply leb_not_nan. apply ltb_leb. exact Hl. Qed.

(** Two numbers that compare equal are the same number, or two zeros. *)
Lemma not_ltb_eq (x y : float) :
  is_nan x = false -> is_nan y = false ->
  (x <? y) = false -> (y <? x) = false ->
  x = y \/ (is_zero x = true /\ is_zero y = true).
Proof.
  intros Hx Hy. rewrite !FloatAxioms.ltb_spec. unfold SFltb.
  rewrite (SFcompare_swap (Prim2SF x) (Prim2SF y)).
  destruct (compare_Some x y Hx Hy) as [c Hc]. rewrite Hc.
  destruct c; cbn; try discriminate. intros _ _.
  destruct (SFcompare_Eq _ _ Hc) as [E | (s & s' & E1 & E2)].
  - left. apply Prim2SF_inj. exact E.
  - right. unfold is_zero. rewrite !FloatAxioms.eqb_spec, E1, E2. split; reflexivity.
Qed.

End FloatFacts.

(** ** [Math.max] over [Math.min]: the clamp *)

Section Clamp.
Import JS.
Local Open Scope float_scope.

Lemma SFltb_trans (x y z : spec_float) :
  SFltb x y = true -> SFltb y z = true -> SFltb x z = true.
Proof.
  unfold SFltb.
  destruct x as [s|s| |s m e], y as [s'|s'| |s' m' e'], z as [s''|s''| |s'' m'' e''];
    cbn; try discriminate; try reflexivity;
    try (destruct s; discriminate); try (destruct s'; discriminate);
    try (destruct s''; discriminate);
    try (destruct s, s'; discriminate); try (destruct s', s''; discriminate);
    try (destruct s, s''; discriminate);
    try (destruct s, s', s''; (discriminate || reflexivity)).
  fold (Pos.compare m m'). fold (Pos.compare m' m''). fold (Pos.compare m m'').
  destruct s, s', s''; try discriminate; try reflexivity;
    destruct (Z.compare_spec e e'), (Z.compare_spec e' e''), (Z.compare_spec e e'');
    try discriminate; try reflexivity; try lia;
    destruct (Pos.compare_spec m m'), (Pos.compare_spec m' m''), (Pos.compare_spec m m'');
    cbn; try discriminate; try reflexivity; try lia.
Qed.

Lemma ltb_trans (x y z : float) :
  (x <? y) = true -> (y <? z) = true -> (x <? z) = true.
Proof. rewrite !FloatAxioms.ltb_spec. apply SFltb_trans. Qed.

Lemma ltb_asym (x y : float) : (x <? y) = true -> (y <? x) = false.
Proof.
  rewrite !FloatAxioms.ltb_spec. unfold SFltb.
  rewrite (SFcompare_swap (Prim2SF x) (Prim2SF y)).
  destruct (SFcompare (Prim2SF x) (Prim2SF y)) as [[]|]; cbn; congruence.
Qed.

Lemma is_zero_nan (x : float) : is_nan x = true -> is_zero x = false.
Proof.
  rewrite is_nan_spec. unfold is_zero. rewrite FloatAxioms.eqb_spec.
  intros ->. reflexivity.
Qed.

(** [Math.max(lo, Math.min(hi, x))] for two bounds that are neither zeros
    nor infinities of the wrong side. *)
Lemma Math_max_min (lo hi x : number) :
  isNaN lo = false -> isNaN hi = false ->
  is_neg_zero lo = false -> is_pos_zero hi = false ->
  (neg_infinity <? lo) = true -> (hi <? infinity) = true ->
  Math_max [lo; Math_min [hi; x]]
  = if isNaN x then nan
    else let m := if x <? hi then x else hi in
         if lo <? m then m else lo.
Proof.
  intros Nlo Nhi Zlo Zhi Ilo Ihi.
  cbv beta zeta iota delta
    [Math_max Math_min Math_max_from Math_min_from max_step min_step].
  change (is_neg_zero neg_infinity) with false.
  change (is_pos_zero infinity) with false.
  rewrite Nlo, Nhi, !andb_false_r, Ilo, Ihi, Zhi, Zlo, !andb_false_r.
  destruct (isNaN x) eqn:Nx.
  - change (isNaN nan) with true. reflexivity.
  - assert (Nm : isNaN (if x <? hi then x else hi) = false)
      by (destruct (x <? hi); assumption).
    rewrite Nm. reflexivity.
Qed.

Lemma Math_max_min_clamp (lo hi x : number) :
  isNaN lo = false -> isNaN hi = false ->
  is_neg_zero lo = false -> is_pos_zero hi = false ->
  (neg_infinity <? lo) = true -> (hi <? infinity) = true ->
  is_zero lo = false -> is_zero hi = false ->
  (lo <? hi) = true ->
  Math_max [lo; Math_min [hi; x]] = clamp_between lo hi x.
Proof.
  intros Nlo Nhi Zlo Zhi Ilo Ihi Zl Zh Hlh.
  rewrite Math_max_min by assumption. unfold clamp_between, isNaN in *.
  destruct (is_nan x) eqn:Nx.
  - assert (Hx : Prim2SF x = S754_nan) by (apply is_nan_spec; exact Nx).
    rewrite !FloatAxioms.ltb_spec, Hx.
    destruct (Prim2SF lo), (Prim2SF hi); cbn;
      apply Prim2SF_inj; rewrite Hx; reflexivity.
  - cbn zeta. destruct (x <? hi) eqn:Hxh.
    + rewrite (ltb_asym _ _ Hxh).
      destruct (x <? lo) eqn:Hxl.
      * rewrite (ltb_asym _ _ Hxl). reflexivity.
      * destruct (lo <? x) eqn:Hlx; [reflexivity|].
        destruct (not_ltb_eq x lo Nx Nlo Hxl Hlx) as [E | [_ E]];
          congruence.
    + rewrite Hlh.
      destruct (x <? lo) eqn:Hxl.
      * rewrite (ltb_trans _ _ _ Hxl Hlh) in Hxh. discriminate.
      * destruct (hi <? x) eqn:Hhx; [reflexivity|].
        destruct (not_ltb_eq x hi Nx Nhi Hxh Hhx) as [E | [_ E]];
          congruence.
Qed.

(** A clamped number that is not NaN lies between the bounds. *)
Lemma Math_max_min_range (lo hi x : number) :
  isNaN lo = false -> isNaN hi = false ->
  is_neg_zero lo = false -> is_pos_zero hi = false ->
  (neg_infinity <? lo) = true -> (hi <? infinity) = true ->
  (lo <=? hi) = true ->
  isNaN x = false ->
  (lo <=? Math_max [lo; Math_min [hi; x]]) = true
  /\ (Math_max [lo; Math_min [hi; x]] <=? hi) = true.
Proof.
  intros Nlo Nhi Zlo Zhi Ilo Ihi Hlh Nx.
  rewrite Math_max_min by assumption. rewrite Nx. cbn zeta.
  unfold isNaN in *.
  destruct (x <? hi) eqn:Hxh.
  - destruct (lo <? x) eqn:Hlx.
    + split; apply ltb_leb; assumption.
    + split; [apply leb_refl | ]; assumption.
  - destruct (lo <? hi) eqn:Hl.
    + split; [apply ltb_leb | apply leb_refl]; assumption.
    + split; [apply leb_refl | ]; assumption.
Qed.

End Clamp.

(** ** Rounding: what [binary_round_aux] returns *)

Section Rounding.
Local Open Scope Z_scope.

Lemma digits2_log2 (p : positive) :
  Z.pos (digits2_pos p) = Z.succ (Z.log2 (Z.pos p)).
Proof.
  assert (E : digits2_pos p = Pos.size p)
    by (induction p as [p IH|p IH|]; cbn; congruence).
  rewrite E. destruct p; cbn [Pos.size Z.log2];
    rewrite ?Pos2Z.inj_succ; reflexivity.
Qed.

Lemma Zdigits2_log2 (m : Z) : 0 < m -> Zdigits2 m = Z.succ (Z.log2 m).
Proof. destruct m; try lia. intros _. apply digits2_log2. Qed.

Lemma Zdigits2_nonneg (m : Z) : 0 <= Zdigits2 m.
Proof. destruct m; cbn; lia. Qed.

Lemma Zdigits2_pos (m : Z) : 0 < Zdigits2 m -> 0 <= m -> 0 < m.
Proof. destruct m; cbn; lia. Qed.

(** A mantissa of [d] binary digits lies in [2^(d-1), 2^d). *)
Lemma Zdigits2_bounds (m : Z) :
  0 < m -> 2 ^ (Zdigits2 m - 1) <= m < 2 ^ Zdigits2 m.
Proof.
  intros Hm. rewrite Zdigits2_log2 by exact Hm.
  replace (Z.succ (Z.log2 m) - 1) with (Z.log2 m) by lia.
  apply Z.log2_spec. exact Hm.
Qed.

Lemma Zdigits2_unique (m d : Z) :
  0 < d -> 2 ^ (d - 1) <= m < 2 ^ d -> Zdigits2 m = d.
Proof.
  intros Hd Hm.
  assert (0 < m) by (assert (0 < 2 ^ (d - 1)) by (apply Z.pow_pos_nonneg; lia); lia).
  rewrite Zdigits2_log2 by assumption.
  rewrite (Z.log2_unique m (d - 1)); [lia | lia |].
  replace (Z.succ (d - 1)) with d by lia. exact Hm.
Qed.

Lemma shr_1_digits (mrs : shr_record) :
  0 <= shr_m mrs ->
  0 <= shr_m (shr_1 mrs)
  /\ Zdigits2 (shr_m (shr_1 mrs)) = Z.max 0 (Zdigits2 (shr_m mrs) - 1).
Proof.
  destruct mrs as [m r s]. cbn [shr_m]. intros Hm.
  destruct m as [|p|p]; [| |lia].
  - cbn. lia.
  - destruct p; cbn [shr_1 shr_m Zdigits2 digits2_pos]; lia.
Qed.

Lemma iter_shr_1_digits (p : positive) :
  forall mrs : shr_record,
    0 <= shr_m mrs ->
    0 <= shr_m (iter_pos shr_1 p mrs)
    /\ Zdigits2 (shr_m (iter_pos shr_1 p mrs))
       = Z.max 0 (Zdigits2 (shr_m mrs) - Z.pos p).
Proof.
  induction p as [p IH|p IH|]; intros mrs Hm; cbn [iter_pos].
  - destruct (shr_1_digits mrs Hm) as [H1 D1].
    destruct (IH _ H1) as [H2 D2].
    destruct (IH _ H2) as [H3 D3].
    split; [exact H3|]. rewrite D3, D2, D1. lia.
  - destruct (IH _ Hm) as [H2 D2].
    destruct (IH _ H2) as [H3 D3].
    split; [exact H3|]. rewrite D3, D2. lia.
  - apply shr_1_digits. exact Hm.
Qed.

Lemma shr_record_of_loc_m (m : Z) (l : location) :
  shr_m (shr_record_of_loc m l) = m.
Proof. destruct l as [|[]]; reflexivity. Qed.

(** [shr_fexp] keeps a mantissa non-negative. *)
Lemma shr_fexp_nonneg (m e : Z) (l : location) :
  0 <= m -> 0 <= shr_m (fst (shr_fexp prec emax m e l)).
Proof.
  intros Hm. unfold shr_fexp, shr.
  destruct (fexp prec emax (Zdigits2 m + e) - e) as [|p|p]; cbn [fst];
    try (rewrite shr_record_of_loc_m; exact Hm).
  apply iter_shr_1_digits. rewrite shr_record_of_loc_m. exact Hm.
Qed.

Lemma round_nearest_even_bounds (m : Z) (l : location) :
  m <= round_nearest_even m l <= m + 1.
Proof.
  unfold round_nearest_even.
  destruct l as [|[]]; try lia. destruct (Z.even m); lia.
Qed.

(** Rounding a non-negative mantissa never yields NaN, and keeps the
    sign. *)
Lemma binary_round_aux_cases (s : bool) (m e : Z) (l : location) :
  0 <= m ->
  binary_round_aux prec emax s m e l = S754_zero s
  \/ binary_round_aux prec emax s m e l = S754_infinity s
  \/ exists m' e', binary_round_aux prec emax s m e l = S754_finite s m' e'.
Proof.
  intros Hm. unfold binary_round_aux.
  pose proof (shr_fexp_nonneg m e l Hm) as H1.
  destruct (shr_fexp prec emax m e l) as [mrs1 e1]. cbn [fst] in H1.
  pose proof (round_nearest_even_bounds (shr_m mrs1) (loc_of_shr_record mrs1)) as Hr.
  set (m1 := round_nearest_even (shr_m mrs1) (loc_of_shr_record mrs1)) in *.
  assert (H2 : 0 <= m1) by lia.
  pose proof (shr_fexp_nonneg m1 e1 loc_Exact H2) as H3.
  destruct (shr_fexp prec emax m1 e1 loc_Exact) as [mrs2 e2]. cbn [fst] in H3.
  destruct (shr_m mrs2) as [|p|p]; [auto | | lia].
  destruct (e2 <=? emax - prec); eauto.
Qed.

Lemma binary_round_cases (s : bool) (m : positive) (e : Z) :
  binary_round prec emax s m e = S754_zero s
  \/ binary_round prec emax s m e = S754_infinity s
  \/ exists m' e', binary_round prec emax s m e = S754_finite s m' e'.
Proof.
  unfold binary_round.
  destruct (shl_align m e (fexp prec emax (Z.pos (digits2_pos m) + e))) as [mz ez].
  apply binary_round_aux_cases. lia.
Qed.

Lemma binary_normalize_not_nan (m e : Z) (sz : bool) :
  binary_normalize prec emax m e sz <> S754_nan.
Proof.
  unfold binary_normalize. destruct m as [|p|p]; [discriminate| |].
  - destruct (binary_round_cases false p e) as [E | [E | (m' & e' & E)]];
      rewrite E; discriminate.
  - destruct (binary_round_cases true p e) as [E | [E | (m' & e' & E)]];
      rewrite E; discriminate.
Qed.

Lemma binary_round_aux_not_nan (s : bool) (m e : Z) (l : location) :
  0 <= m -> binary_round_aux prec emax s m e l <> S754_nan.
Proof.
  intros Hm.
  destruct (binary_round_aux_cases s m e l Hm) as [E | [E | (m' & e' & E)]];
    rewrite E; discriminate.
Qed.

(** In the normal range a mantissa of at least [prec] digits is rounded to
    a normal number or overflows. *)
Lemma binary_round_aux_normal (s : bool) (m e : Z) (l : location) :
  0 < m ->
  prec <= Zdigits2 m ->
  emin <= Zdigits2 m + e - prec ->
  (exists m' e',
      binary_round_aux prec emax s m e l = S754_finite s m' e'
      /\ Z.pos (digits2_pos m') = prec
      /\ Zdigits2 m + e - prec <= e' <= Zdigits2 m + e - prec + 1
      /\ e' <= emax - prec)
  \/ (binary_round_aux prec emax s m e l = S754_infinity s
      /\ emax <= Zdigits2 m + e + 1).
Proof.
  intros Hm Hd He. unfold binary_round_aux.
  assert (Hprec : prec = 53) by reflexivity.
  assert (Hemax : emax = 1024) by reflexivity.
  set (d := Zdigits2 m) in *.
  (* first shift: down to [prec] digits *)
  assert (S1 : exists mrs1,
             shr_fexp prec emax m e l = (mrs1, d + e - prec)
             /\ 0 <= shr_m mrs1 /\ Zdigits2 (shr_m mrs1) = prec).
  { unfold shr_fexp, shr. fold d.
    replace (fexp prec emax (d + e) - e) with (d - prec)
      by (unfold fexp, SpecFloat.emin in *; lia).
    destruct (d - prec) as [|p|p] eqn:Ed; [| |lia].
    - exists (shr_record_of_loc m l). rewrite shr_record_of_loc_m.
      repeat split; [f_equal; lia | lia | fold d; lia].
    - destruct (iter_shr_1_digits p (shr_record_of_loc m l)) as [N D];
        [rewrite shr_record_of_loc_m; lia|].
      rewrite shr_record_of_loc_m in D. fold d in D.
      eexists. repeat split; [f_equal; lia | exact N | rewrite D; lia]. }
  destruct S1 as (mrs1 & -> & N1 & D1).
  pose proof (round_nearest_even_bounds (shr_m mrs1) (loc_of_shr_record mrs1)) as Hr.
  set (m1 := round_nearest_even (shr_m mrs1) (loc_of_shr_record mrs1)) in *.
  assert (P1 : 0 < shr_m mrs1)
    by (apply Zdigits2_pos; [rewrite D1; reflexivity | exact N1]).
  pose proof (Zdigits2_bounds _ P1) as B1. rewrite D1 in B1.
  (* after rounding: [prec] digits, or [2^prec] *)
  set (e1 := d + e - prec) in *.
  assert (S2 : exists mrs2 e2,
             shr_fexp prec emax m1 e1 loc_Exact = (mrs2, e2)
             /\ 0 < shr_m mrs2 /\ Zdigits2 (shr_m mrs2) = prec
             /\ e1 <= e2 <= e1 + 1).
  { destruct (Z.eq_dec m1 (2 ^ prec)) as [E | NE].
    - rewrite E. exists (Build_shr_record (2 ^ (prec - 1)) false false), (e1 + 1).
      split; [|cbn; lia].
      unfold shr_fexp, shr.
      replace (Zdigits2 (2 ^ prec)) with (prec + 1) by reflexivity.
      replace (fexp prec emax (prec + 1 + e1) - e1) with 1
        by (unfold fexp, SpecFloat.emin in *; lia).
      reflexivity.
    - assert (D2 : Zdigits2 m1 = prec)
        by (apply Zdigits2_unique; [reflexivity | lia]).
      exists (shr_record_of_loc m1 loc_Exact), e1.
      split; [|cbn [shr_record_of_loc shr_m]; lia].
      unfold shr_fexp, shr. rewrite D2.
      replace (fexp prec emax (prec + e1) - e1) with 0
        by (unfold fexp, SpecFloat.emin in *; lia).
      reflexivity. }
  destruct S2 as (mrs2 & e2 & -> & P2 & D2 & He2).
  destruct (shr_m mrs2) as [|p|p] eqn:Em; try lia.
  destruct (e2 <=? emax - prec) eqn:Ee.
  - left. exists p, e2. apply Z.leb_le in Ee.
    repeat split; try lia. exact D2.
  - right. apply Z.leb_gt in Ee. split; [reflexivity|]. lia.
Qed.

End Rounding.

(** ** Which operations return NaN *)

Section Arithmetic.
Local Open Scope float_scope.

Lemma is_finite_spec (x : float) : is_finite x = SFfinite (Prim2SF x).
Proof.
  unfold is_finite, is_infinity.
  rewrite FloatAxioms.eqb_spec, abs_spec.
  destruct (is_nan x) eqn:Nx.
  - apply is_nan_spec in Nx. rewrite Nx. reflexivity.
  - apply is_nan_false in Nx.
    destruct (Prim2SF x) as [s|s| |s m e]; try reflexivity. congruence.
Qed.

Lemma is_finite_not_nan (x : float) : is_finite x = true -> is_nan x = false.
Proof.
  rewrite is_finite_spec, is_nan_false. intros Hf E. rewrite E in Hf.
  discriminate.
Qed.

Lemma sub_not_nan (x y : float) :
  is_finite x = true -> is_finite y = true -> is_nan (x - y) = false.
Proof.
  rewrite !is_finite_spec, is_nan_false, sub_spec. unfold SF64sub.
  destruct (Prim2SF x) as [s|s| |s m e], (Prim2SF y) as [s'|s'| |s' m' e'];
    cbn [SFfinite SFsub]; try discriminate; intros _ _;
    first [ apply binary_normalize_not_nan
          | destruct s, s'; discriminate ].
Qed.

Lemma add_not_nan (x y : float) :
  is_finite x = true -> is_nan y = false -> is_nan (x + y) = false.
Proof.
  rewrite is_finite_spec, !is_nan_false, add_spec. unfold SF64add.
  destruct (Prim2SF x) as [s|s| |s m e], (Prim2SF y) as [s'|s'| |s' m' e'];
    cbn [SFfinite SFadd]; try discriminate; try congruence; intros _ _;
    first [ apply binary_normalize_not_nan
          | destruct s, s'; discriminate ].
Qed.

(** Multiplying by a finite number other than zero. *)
Lemma mul_not_nan (x y : float) (s : bool) (m : positive) (e : Z) :
  Prim2SF y = S754_finite s m e ->
  is_nan x = false -> is_nan (x * y) = false.
Proof.
  intros Hy. rewrite !is_nan_false, mul_spec, Hy. unfold SF64mul.
  destruct (Prim2SF x) as [sx|sx| |sx mx ex]; cbn [SFmul];
    try discriminate; try congruence; intros _.
  apply binary_round_aux_not_nan. lia.
Qed.

(** A number between two finite numbers is finite. *)
Lemma between_finite (lo hi x : float) :
  is_finite lo = true -> is_finite hi = true ->
  (lo <=? x) = true -> (x <=? hi) = true -> is_finite x = true.
Proof.
  rewrite !is_finite_spec, !FloatAxioms.leb_spec. unfold SFleb.
  destruct (Prim2SF lo) as [sl|sl| |sl ml el]; try discriminate;
    destruct (Prim2SF hi) as [sh|sh| |sh mh eh]; try discriminate;
    destruct (Prim2SF x) as [s|s| |s m e]; cbn; try reflexivity;
    try discriminate; destruct s; try discriminate;
    try (destruct sl; discriminate); try (destruct sh; discriminate).
Qed.

Lemma abs_finite (x : float) : is_finite x = true -> is_finite (abs x) = true.
Proof.
  rewrite !is_finite_spec, abs_spec.
  destruct (Prim2SF x); cbn; congruence.
Qed.

End Arithmetic.

(** ** [Math.max] on finite numbers *)

Section MathMax.
Import JS.
Local Open Scope float_scope.

Lemma SFleb_trans (x y z : spec_float) :
  SFleb x y = true -> SFleb y z = true -> SFleb x z = true.
Proof.
  unfold SFleb.
  destruct x as [s|s| |s m e], y as [s'|s'| |s' m' e'], z as [s''|s''| |s'' m'' e''];
    cbn; try discriminate; try reflexivity;
    try (destruct s; (discriminate || reflexivity));
    try (destruct s'; (discriminate || reflexivity));
    try (destruct s''; (discriminate || reflexivity));
    try (destruct s, s'; (discriminate || reflexivity));
    try (destruct s', s''; (discriminate || reflexivity));
    try (destruct s, s''; (discriminate || reflexivity));
    try (destruct s, s', s''; (discriminate || reflexivity)).
  fold (Pos.compare m m'). fold (Pos.compare m' m''). fold (Pos.compare m m'').
  destruct s, s', s''; try discriminate; try reflexivity;
    destruct (Z.compare_spec e e'), (Z.compare_spec e' e''), (Z.compare_spec e e'');
    try discriminate; try reflexivity; try lia;
    destruct (Pos.compare_spec m m'), (Pos.compare_spec m' m''), (Pos.compare_spec m m'');
    cbn; try discriminate; try reflexivity; try lia.
Qed.

Lemma leb_trans (x y z : float) :
  (x <=? y) = true -> (y <=? z) = true -> (x <=? z) = true.
Proof. rewrite !FloatAxioms.leb_spec. apply SFleb_trans. Qed.

Lemma is_neg_zero_spec (x : float) :
  is_neg_zero x = true -> Prim2SF x = S754_zero true.
Proof.
  unfold is_neg_zero. rewrite classify_spec. unfold SF64classify, SFclassify.
  destruct (Prim2SF x) as [[]|[]| |[] m e]; try discriminate; try reflexivity;
    destruct (Z.pos (digits2_pos m) =? prec)%Z; discriminate.
Qed.

Lemma neg_infinity_ltb (x : float) :
  is_finite x = true -> (neg_infinity <? x) = true.
Proof.
  rewrite is_finite_spec, FloatAxioms.ltb_spec. unfold SFltb.
  destruct (Prim2SF x) as [s|s| |s m e]; cbn; congruence.
Qed.

Lemma max_step_finite (h n : number) :
  is_finite h = true -> is_finite n = true -> is_finite (max_step h n) = true.
Proof.
  intros Hh Hn. unfold max_step.
  destruct (is_pos_zero n && is_neg_zero h);
    match goal with |- context [if ?c then _ else _] => destruct c end;
    first [assumption | reflexivity].
Qed.

Lemma max_step_ge_highest (h n : number) :
  is_finite h = true -> is_finite n = true -> (h <=? max_step h n) = true.
Proof.
  intros Hh Hn. unfold max_step.
  destruct (is_pos_zero n && is_neg_zero h) eqn:Ez.
  - apply andb_true_iff in Ez as [_ Ez]. apply is_neg_zero_spec in Ez.
    assert (Hz : (h <=? PrimFloat.zero) = true)
      by (rewrite FloatAxioms.leb_spec, Ez; reflexivity).
    destruct (PrimFloat.zero <? n) eqn:El; [|exact Hz].
    apply (leb_trans _ _ _ Hz). apply ltb_leb. exact El.
  - destruct (h <? n) eqn:El.
    + apply ltb_leb. exact El.
    + apply leb_refl. apply is_finite_not_nan. exact Hh.
Qed.

Lemma max_step_ge_number (h n : number) :
  is_finite h = true -> is_finite n = true -> (n <=? max_step h n) = true.
Proof.
  intros Hh Hn. unfold max_step.
  set (h' := if is_pos_zero n && is_neg_zero h then PrimFloat.zero else h).
  assert (Hh' : is_finite h' = true)
    by (unfold h'; destruct (is_pos_zero n && is_neg_zero h);
        [reflexivity | exact Hh]).
  destruct (h' <? n) eqn:El.
  - apply leb_refl. apply is_finite_not_nan. exact Hn.
  - apply ltb_false_leb; try apply is_finite_not_nan; assumption.
Qed.

Lemma Math_max_from_step (h n : number) (rest : list number) :
  is_finite n = true ->
  Math_max_from h (n :: rest) = Math_max_from (max_step h n) rest.
Proof.
  intros Hn. cbn [Math_max_from]. unfold isNaN.
  rewrite (is_finite_not_nan _ Hn). reflexivity.
Qed.

Lemma Math_max_from_finite (l : list number) :
  forall h, all_finite l -> is_finite h = true ->
            is_finite (Math_max_from h l) = true
            /\ (h <=? Math_max_from h l) = true
            /\ (forall n, In n l -> (n <=? Math_max_from h l) = true).
Proof.
  induction l as [|n l IH]; intros h Hl Hh.
  - cbn. repeat split; try assumption.
    + apply leb_refl. apply is_finite_not_nan. exact Hh.
    + intros n [].
  - inversion Hl as [|? ? Hn Hrest]; subst.
    rewrite Math_max_from_step by exact Hn.
    destruct (IH (max_step h n) Hrest (max_step_finite h n Hh Hn))
      as (Hf & Hge & Hin).
    repeat split.
    + exact Hf.
    + apply (leb_trans _ (max_step h n)); [|exact Hge].
      apply max_step_ge_highest; assumption.
    + intros k [<- | Hk].
      * apply (leb_trans _ (max_step h n)); [|exact Hge].
        apply max_step_ge_number; assumption.
      * apply Hin. exact Hk.
Qed.

(** [Math.max] of finite numbers is finite and at least each of them. *)
Lemma Math_max_finite (n : number) (l : list number) :
  all_finite (n :: l) ->
  is_finite (Math_max (n :: l)) = true
  /\ (forall k, In k (n :: l) -> (k <=? Math_max (n :: l)) = true).
Proof.
  intros Hl. inversion Hl as [|? ? Hn Hrest]; subst.
  assert (E : Math_max (n :: l) = Math_max_from n l).
  { unfold Math_max. rewrite Math_max_from_step by exact Hn.
    unfold max_step. change (is_neg_zero neg_infinity) with false.
    rewrite andb_false_r, (neg_infinity_ltb _ Hn). reflexivity. }
  rewrite E.
  destruct (Math_max_from_finite l n Hrest Hn) as (Hf & Hge & Hin).
  split; [exact Hf|]. intros k [<- | Hk]; [exact Hge | apply Hin; exact Hk].
Qed.

End MathMax.

(** ** The similarity routine *)

Section Similarity.
Import JS JSString MathUtils.
Local Open Scope float_scope.
Context `{MathLib}.

Lemma index_middle (pre post : list number) (v : number) :
  index (pre ++ v :: post) (length pre) = v.
Proof. unfold index. apply nth_middle. Qed.

(** The loop over the indices computes the three left-to-right sums. *)
Lemma for_loop_sums (ra : list number) :
  forall (rb pa pb : list number) (s : Sums),
    length pa = length pb ->
    length ra = length rb ->
    for_loop (pa ++ ra) (pb ++ rb) (length ra) (length pa) s
    = {| accDot := fold_left PrimFloat.add (products ra rb) (accDot s);
         accSqA := fold_left PrimFloat.add (products ra ra) (accSqA s);
         accSqB := fold_left PrimFloat.add (products rb rb) (accSqB s) |}.
Proof.
  induction ra as [|a ra IH]; intros rb pa pb s Hp Hr.
  - destruct rb; [|discriminate]. destruct s; reflexivity.
  - destruct rb as [|b rb]; [discriminate|].
    injection Hr as Hr. cbn [length for_loop].
    assert (Ea : pa ++ a :: ra = (pa ++ [a]) ++ ra)
      by (rewrite <- app_assoc; reflexivity).
    assert (Eb : pb ++ b :: rb = (pb ++ [b]) ++ rb)
      by (rewrite <- app_assoc; reflexivity).
    assert (El : S (length pa) = length (pa ++ [a]))
      by (rewrite length_app; cbn; lia).
    assert (Ia : index (pa ++ a :: ra) (length pa) = a)
      by apply index_middle.
    assert (Ib : index (pb ++ b :: rb) (length pa) = b)
      by (rewrite Hp; apply index_middle).
    unfold loop_body. rewrite Ia, Ib.
    rewrite Ea, Eb, El. rewrite IH.
    + reflexivity.
    + rewrite !length_app. cbn. lia.
    + exact Hr.
Qed.

Lemma for_loop_whole (vecA vecB : list number) :
  length vecA = length vecB ->
  for_loop vecA vecB (length vecA) 0 initial_sums
  = {| accDot := dot vecA vecB;
       accSqA := dot vecA vecA;
       accSqB := dot vecB vecB |}.
Proof.
  intros Hl. exact (for_loop_sums vecA vecB [] [] initial_sums eq_refl Hl).
Qed.

Lemma rejects_false (vecA vecB : list number) :
  rejects vecA vecB = false <-> vecA <> [] /\ length vecA = length vecB.
Proof.
  unfold rejects. rewrite !orb_false_iff, negb_false_iff, !Nat.eqb_neq, Nat.eqb_eq.
  split.
  - intros [[Ha _] Hl]. split; [|exact Hl].
    intros ->. apply Ha. reflexivity.
  - intros [Ha Hl]. repeat split.
    + destruct vecA; [congruence | discriminate].
    + rewrite <- Hl. destruct vecA; [congruence | discriminate].
    + exact Hl.
Qed.

Lemma rejects_true (vecA vecB : list number) :
  rejects vecA vecB = true
  <-> vecA = [] \/ vecB = [] \/ length vecA <> length vecB.
Proof.
  unfold rejects. rewrite !orb_true_iff, negb_true_iff, !Nat.eqb_eq, Nat.eqb_neq.
  split.
  - intros [[Ha | Hb] | Hl].
    + left. destruct vecA; [reflexivity | discriminate].
    + right; left. destruct vecB; [reflexivity | discriminate].
    + right; right. exact Hl.
  - intros [-> | [-> | Hl]]; auto.
Qed.

(** The routine on two vectors it accepts. *)
Lemma calculate_accepted (vecA vecB : list number) :
  vecA <> [] ->
  length vecA = length vecB ->
  calculateCosineSimilarity vecA vecB
  = Some (result_of_sums
            {| accDot := dot vecA vecB;
               accSqA := dot vecA vecA;
               accSqB := dot vecB vecB |} (length vecA)).
Proof.
  intros Ha Hl. unfold calculateCosineSimilarity.
  destruct (rejects vecA vecB) eqn:E.
  - apply rejects_true in E. destruct E as [E | [E | E]].
    + contradiction.
    + subst vecB. destruct vecA; [contradiction | discriminate].
    + contradiction.
  - rewrite for_loop_whole by exact Hl. reflexivity.
Qed.

End Similarity.

Section SimilarityTheorems.
Import JS JSString MathUtils.
Local Open Scope float_scope.
Context `{MathLib}.

Lemma clamp_unit_clamp (x : number) : clamp_unit x = clamp_between (-1) 1 x.
Proof. unfold clamp_unit. apply Math_max_min_clamp; reflexivity. Qed.

(** Without NaN the clamp does bound the value. *)
Lemma clamp_unit_range (x : number) :
  isNaN x = false ->
  (-1 <=? clamp_unit x) = true /\ (clamp_unit x <=? 1) = true.
Proof.
  intros Hx. unfold clamp_unit.
  apply Math_max_min_range; try reflexivity. exact Hx.
Qed.


(** C2: [null] exactly for an empty vector or two lengths that differ, a
    result for every other pair. *)
Theorem calculate_null_iff (vecA vecB : list number) :
  (calculateCosineSimilarity vecA vecB = None
   <-> vecA = [] \/ vecB = [] \/ length vecA <> length vecB)
  /\ ((vecA = [] \/ vecB = [] \/ length vecA <> length vecB)
      \/ exists r, calculateCosineSimilarity vecA vecB = Some r)
  /\ calculateCosineSimilarity [1; 2] [1; 2; 3] = None
  /\ calculateCosineSimilarity [] [] = None.
Proof.
  assert (E : calculateCosineSimilarity vecA vecB = None
              <-> rejects vecA vecB = true).
  { unfold calculateCosineSimilarity.
    destruct (rejects vecA vecB); split; congruence. }
  split; [|split; [|split; reflexivity]].
  - rewrite E. apply rejects_true.
  - destruct (rejects vecA vecB) eqn:R.
    + left. apply rejects_true. exact R.
    + right. unfold calculateCosineSimilarity. rewrite R. eauto.
Qed.

(** C3: when a computed magnitude is zero the result has similarity 0 and
    angle 0, which are numbers, next to the sums as computed; [0,0] and
    [1,2] are such a pair. *)
Theorem calculate_zero_magnitude (vecA vecB : list number) :
  vecA <> [] ->
  length vecA = length vecB ->
  strict_eq (magnitude vecA) 0 || strict_eq (magnitude vecB) 0 = true ->
  calculateCosineSimilarity vecA vecB
  = Some {| dotProduct := dot vecA vecB;
            magnitudeA := magnitude vecA;
            magnitudeB := magnitude vecB;
            cosineSimilarity := 0;
            angleDegrees := 0;
            dimensions := length vecA |}
  /\ isNaN 0 = false
  /\ (exists r, calculateCosineSimilarity [0; 0] [1; 2] = Some r
                /\ cosineSimilarity r = 0 /\ angleDegrees r = 0).
Proof.
  intros Ha Hl Hz. split; [|split].
  - rewrite calculate_accepted by assumption.
    unfold result_of_sums. cbn [accDot accSqA accSqB].
    fold (magnitude vecA). fold (magnitude vecB).
    rewrite Hz. reflexivity.
  - reflexivity.
  - eexists. split; [reflexivity|]. split; reflexivity.
Qed.

(** Whatever the vectors, the similarity returned is NaN or lies within
    [-1, 1]. *)
Lemma similarity_in_range_or_nan (vecA vecB : list number) (r : VectorResult) :
  calculateCosineSimilarity vecA vecB = Some r ->
  isNaN (cosineSimilarity r) = true
  \/ ((-1 <=? cosineSimilarity r) = true /\ (cosineSimilarity r <=? 1) = true).
Proof.
  unfold calculateCosineSimilarity.
  destruct (rejects vecA vecB); [discriminate|]. intros [= <-].
  unfold result_of_sums.
  match goal with |- context [if ?c then _ else _] => destruct c end;
    cbn [cosineSimilarity].
  - right. split; reflexivity.
  - match goal with |- context [clamp_unit ?q] => set (quotient := q) end.
    destruct (isNaN quotient) eqn:Nq.
    + left. rewrite clamp_unit_clamp. unfold clamp_between, isNaN in *.
      apply is_nan_spec in Nq.
      rewrite !FloatAxioms.ltb_spec, Nq. cbn.
      apply is_nan_spec. exact Nq.
    + right. apply clamp_unit_range. exact Nq.
Qed.

(** The square of 1e-200 underflows: the computed magnitude of a vector can
    be zero although a component is not. *)
Lemma magnitude_underflow :
  magnitude (parseVectorString (lit "1e-200")) = 0
  /\ parseVectorString (lit "1e-200") <> [0].
Proof. split; [vm_compute; reflexivity | vm_compute; discriminate]. Qed.


(** C4 fails on the code: the squares of 1e200 overflow, the quotient is
    [infinity / infinity], and [Math.max] and [Math.min] hand the NaN on, so
    the similarity returned for two finite vectors is NaN and not a number
    of [-1, 1]. *)
Theorem clamp_lets_nan_through :
  is_finite ten_to_200 = true
  /\ parseVectorString (lit "1e200") = [ten_to_200]
  /\ exists r,
       calculateCosineSimilarity [ten_to_200] [ten_to_200] = Some r
       /\ dotProduct r = infinity
       /\ magnitudeA r = infinity
       /\ magnitudeB r = infinity
       /\ isNaN (cosineSimilarity r) = true
       /\ (-1 <=? cosineSimilarity r) = false
       /\ (cosineSimilarity r <=? 1) = false.
Proof.
  split; [reflexivity|]. split; [vm_compute; reflexivity|].
  eexists. split; [reflexivity|]. repeat split.
Qed.

(** The [while] loop ends within [length vecA + 1] tests of its condition
    and leaves the sums of the counted loop. *)
Lemma while_loop_ends (vecA vecB : list number) (remaining : nat) :
  forall (i k : nat) (s : Sums),
    (i + remaining = length vecA)%nat ->
    while_loop (S remaining + k) vecA vecB i s
    = Some (for_loop vecA vecB remaining i s).
Proof.
  induction remaining as [|r IH]; intros i k s Hi.
  - cbn [while_loop for_loop Nat.add].
    assert (E : (i <? length vecA)%nat = false) by (apply Nat.ltb_ge; lia).
    rewrite E. reflexivity.
  - cbn [for_loop]. change (S (S r) + k)%nat with (S (S r + k)).
    cbn [while_loop].
    assert (E : (i <? length vecA)%nat = true) by (apply Nat.ltb_lt; lia).
    rewrite E. apply IH. lia.
Qed.

(** C6: both functions return for every input.  The parser returns a list of
    numbers none of which is NaN; the loop of the routine ends within
    [length vecA + 1] tests, and the routine returns [null] or a record:
    [null] for the rejected pairs, zeros in the record for a zero magnitude,
    and NaN in the record when the sums overflow. *)
Theorem both_functions_return (input : jsstring) (vecA vecB : list number)
  (k : nat) :
  Forall (fun n => isNaN n = false) (parseVectorString input)
  /\ calculateCosineSimilarity_run (S (length vecA) + k) vecA vecB
     = Some (calculateCosineSimilarity vecA vecB)
  /\ (calculateCosineSimilarity vecA vecB = None
      \/ exists r, calculateCosineSimilarity vecA vecB = Some r
                   /\ dimensions r = length vecA)
  /\ parseVectorString [] = []
  /\ calculateCosineSimilarity [] [] = None
  /\ calculateCosineSimilarity [1; 2] [1; 2; 3] = None
  /\ (exists r, calculateCosineSimilarity [0; 0] [1; 2] = Some r
                /\ cosineSimilarity r = 0 /\ angleDegrees r = 0)
  /\ (exists r, calculateCosineSimilarity [ten_to_200] [ten_to_200] = Some r
                /\ isNaN (cosineSimilarity r) = true).
Proof.
  split; [|split; [|split]].
  - unfold parseVectorString. apply Forall_forall. intros n Hn.
    apply filter_In in Hn as [_ Hn]. apply negb_true_iff. exact Hn.
  - unfold calculateCosineSimilarity_run, calculateCosineSimilarity.
    destruct (rejects vecA vecB); [reflexivity|].
    rewrite while_loop_ends by reflexivity. reflexivity.
  - unfold calculateCosineSimilarity.
    destruct (rejects vecA vecB); [left; reflexivity|].
    right. eexists. split; [reflexivity|].
    unfold result_of_sums.
    match goal with |- context [if ?c then _ else _] => destruct c end;
      reflexivity.
  - repeat split; try reflexivity.
    + eexists. split; [reflexivity|]. split; reflexivity.
    + eexists. split; reflexivity.
Qed.

End SimilarityTheorems.

Section SimilarityWitnesses.
Import JS MathUtils.
Local Open Scope float_scope.


Lemma calculate_zero_magnitude_witness :
  (strict_eq (magnitude [0; 0]) 0
   || strict_eq (magnitude [1; 2]) 0 = true)
  /\ @calculateCosineSimilarity acos_at_0_and_1
       [0; 0] [1; 2]
     = Some {| dotProduct := dot [0; 0] [1; 2];
               magnitudeA := magnitude [0; 0];
               magnitudeB := magnitude [1; 2];
               cosineSimilarity := 0;
               angleDegrees := 0;
               dimensions := 2 |}.
Proof.
  split; [reflexivity|].
  apply (@calculate_zero_magnitude acos_at_0_and_1 [0; 0] [1; 2]);
    first [reflexivity | discriminate].
Defined.

End SimilarityWitnesses.

(** ** The parser *)

Section Parser.
Import JS JSString MathUtils Tokens.
Local Open Scope float_scope.

Lemma emit_app (tok : jsstring) (l : list jsstring) :
  emit tok l = emit tok [] ++ l.
Proof. destruct tok; reflexivity. Qed.

Lemma rev_nonempty (t : jsstring) : nonempty (rev t) = nonempty t.
Proof.
  destruct t as [|c t]; [reflexivity|]. cbn [rev nonempty].
  destruct (rev t); reflexivity.
Qed.

(** Dropping the empty substrings of [split] leaves the tokens. *)
Lemma split_from_tokens (s : jsstring) :
  forall (field : jsstring) (in_run : bool),
    (in_run = true -> field = []) ->
    filter nonempty (split_from field in_run s) = tokens_from field s.
Proof.
  induction s as [|c s IH]; intros field in_run Hrun; cbn [split_from tokens_from].
  - cbn [filter]. rewrite rev_nonempty. destruct field; reflexivity.
  - destruct (is_separator c).
    + destruct in_run.
      * rewrite (Hrun eq_refl). cbn [emit]. apply IH. reflexivity.
      * cbn [filter]. rewrite rev_nonempty, IH by reflexivity.
        destruct field; reflexivity.
    + apply IH. discriminate.
Qed.

Lemma separator_free_rev (t : jsstring) :
  separator_free (rev t) = separator_free t.
Proof.
  unfold separator_free. induction t as [|c t IH]; [reflexivity|].
  cbn [rev forallb]. rewrite forallb_app, IH. cbn [forallb].
  rewrite andb_true_r. apply andb_comm.
Qed.

Lemma split_from_separator_free (s : jsstring) :
  forall (field : jsstring) (in_run : bool),
    separator_free field = true ->
    Forall (fun t => separator_free t = true) (split_from field in_run s).
Proof.
  induction s as [|c s IH]; intros field in_run Hf; cbn [split_from].
  - constructor; [|constructor]. rewrite separator_free_rev. exact Hf.
  - destruct (is_separator c) eqn:Ec.
    + destruct in_run.
      * apply IH. reflexivity.
      * constructor; [rewrite separator_free_rev; exact Hf|].
        apply IH. reflexivity.
    + apply IH. unfold separator_free in *. cbn [forallb].
      rewrite Ec, Hf. reflexivity.
Qed.

Lemma trim_start_separator_free (t : jsstring) :
  separator_free t = true -> trim_start t = t.
Proof.
  destruct t as [|c t]; [reflexivity|]. unfold separator_free.
  cbn [forallb trim_start]. unfold is_separator.
  destruct (is_whitespace c); [discriminate | reflexivity].
Qed.

(** [trim] leaves the substrings of [split] as they are. *)
Lemma trim_separator_free (t : jsstring) :
  separator_free t = true -> trim t = t.
Proof.
  intros Ht. unfold trim, trim_end.
  rewrite (trim_start_separator_free t Ht).
  rewrite trim_start_separator_free by (rewrite separator_free_rev; exact Ht).
  apply rev_involutive.
Qed.

Lemma parse_fields (fields : list jsstring) :
  Forall (fun t => separator_free t = true) fields ->
  filter (fun n => negb (isNaN n)) (map (fun s => parseFloat (trim s)) fields)
  = filter (fun n => negb (isNaN n)) (map parseFloat (filter nonempty fields)).
Proof.
  induction 1 as [|t fields Ht _ IH]; [reflexivity|].
  cbn [map filter]. rewrite (trim_separator_free t Ht), IH.
  destruct t; reflexivity.
Qed.

Lemma parseVectorString_tokens (input : jsstring) :
  parseVectorString input
  = filter (fun n => negb (isNaN n)) (map parseFloat (tokens input)).
Proof.
  unfold parseVectorString, split_separators, tokens.
  rewrite parse_fields by (apply split_from_separator_free; reflexivity).
  rewrite split_from_tokens by discriminate. reflexivity.
Qed.

(** The three equations that fix [tokens]. *)
Lemma tokens_from_run (t : jsstring) :
  forall tok, separator_free t = true ->
              tokens_from tok t = emit (rev t ++ tok) [].
Proof.
  induction t as [|c t IH]; intros tok Ht; [reflexivity|].
  unfold separator_free in Ht. cbn [forallb] in Ht.
  apply andb_true_iff in Ht as [Hc Ht]. apply negb_true_iff in Hc.
  cbn [tokens_from rev]. rewrite Hc, IH by exact Ht.
  rewrite <- app_assoc. reflexivity.
Qed.

Lemma tokens_run (t : jsstring) :
  t <> [] -> separator_free t = true -> tokens t = [t].
Proof.
  intros Hne Ht. unfold tokens. rewrite tokens_from_run by exact Ht.
  rewrite app_nil_r. unfold emit.
  destruct (rev t) eqn:E.
  - apply (f_equal (@rev _)) in E. rewrite rev_involutive in E. contradiction.
  - rewrite <- E, rev_involutive. reflexivity.
Qed.

Lemma tokens_from_separator (s1 s2 : jsstring) (c : code_unit) :
  is_separator c = true ->
  forall tok,
    tokens_from tok (s1 ++ c :: s2) = tokens_from tok s1 ++ tokens_from [] s2.
Proof.
  intros Hc. induction s1 as [|a s1 IH]; intros tok.
  - cbn [app tokens_from]. rewrite Hc. apply emit_app.
  - cbn [app tokens_from]. destruct (is_separator a).
    + rewrite IH, (emit_app tok (tokens_from [] s1 ++ _)),
        (emit_app tok (tokens_from [] s1)), app_assoc. reflexivity.
    + apply IH.
Qed.

Lemma tokens_separator (s1 s2 : jsstring) (c : code_unit) :
  is_separator c = true -> tokens (s1 ++ c :: s2) = tokens s1 ++ tokens s2.
Proof. intros Hc. apply tokens_from_separator. exact Hc. Qed.

(** C5: the parser returns, in order, the numbers that [parseFloat] reads
    from the tokens of the input and that are not NaN, where the tokens are
    what is left between the runs of white space and commas: no token of the
    empty string, a run without separators is its own token, and a separator
    splits.  No element of the result is NaN; the result is empty exactly
    when no token parses, in particular for the empty input. *)
Theorem parseVectorString_contract (input : jsstring) :
  parseVectorString input
  = filter (fun n => negb (isNaN n)) (map parseFloat (tokens input))
  /\ tokens [] = []
  /\ (forall t, t <> [] -> separator_free t = true -> tokens t = [t])
  /\ (forall s1 s2 c, is_separator c = true ->
                      tokens (s1 ++ c :: s2) = tokens s1 ++ tokens s2)
  /\ Forall (fun n => isNaN n = false) (parseVectorString input)
  /\ (parseVectorString input = []
      <-> forallb (fun t => isNaN (parseFloat t)) (tokens input) = true)
  /\ parseVectorString [] = []
  /\ parseVectorString (lit "2, 1") = [2; 1]
  /\ parseVectorString (lit "1 2  3") = [1; 2; 3]
  /\ parseVectorString (lit "a, 2, b") = [2].
Proof.
  split; [apply parseVectorString_tokens|].
  split; [reflexivity|].
  split; [exact tokens_run|].
  split; [exact tokens_separator|].
  split.
  { unfold parseVectorString. apply Forall_forall. intros n Hn.
    apply filter_In in Hn as [_ Hn]. apply negb_true_iff. exact Hn. }
  split.
  { rewrite parseVectorString_tokens.
    induction (tokens input) as [|t l IH]; [split; reflexivity|].
    cbn [map filter forallb].
    destruct (isNaN (parseFloat t)); cbn [negb andb].
    - exact IH.
    - split; discriminate. }
  repeat split; vm_compute; reflexivity.
Qed.

Lemma parseVectorString_contract_witness :
  tokens (lit "12" ++ 0x2C%N :: lit "7") = tokens (lit "12") ++ tokens (lit "7")
  /\ tokens (lit "12") = [lit "12"].
Proof.
  pose proof (parseVectorString_contract []) as (_ & _ & Hrun & Hsep & _).
  split.
  - apply Hsep. reflexivity.
  - apply Hrun; [discriminate | reflexivity].
Defined.

(** *** A numeric prefix is enough *)

Lemma digit_not_whitespace (c : code_unit) :
  is_digit c = true -> is_whitespace c = false.
Proof.
  unfold is_digit, is_whitespace. intros Hd.
  apply andb_true_iff in Hd as [H1 H2].
  apply N.leb_le in H1. apply N.leb_le in H2.
  repeat match goal with
         | |- context [(c =? ?k)%N] =>
             rewrite (proj2 (N.eqb_neq c k)) by lia
         end.
  rewrite (proj2 (N.leb_gt 0x2000 c)) by lia. reflexivity.
Qed.

Lemma span_digits_app (d rest : jsstring) :
  forallb is_digit d = true ->
  match rest with [] => true | c :: _ => negb (is_digit c) end = true ->
  span_digits (d ++ rest) = (d, rest).
Proof.
  intros Hd Hr. induction d as [|c d IH].
  - destruct rest as [|c rest]; [reflexivity|]. cbn [app span_digits].
    apply negb_true_iff in Hr. rewrite Hr. reflexivity.
  - cbn [forallb] in Hd. apply andb_true_iff in Hd as [Hc Hd].
    cbn [app span_digits]. rewrite Hc, (IH Hd). reflexivity.
Qed.

Lemma parseFloat_digits (d rest : jsstring) :
  d <> [] -> forallb is_digit d = true -> ends_number rest = true ->
  parseFloat (d ++ rest)
  = literal_value (LitDecimal false (digits_value d) 0).
Proof.
  intros Hne Hd Hr.
  destruct d as [|c0 d]; [contradiction|].
  assert (Hc0 : is_digit c0 = true)
    by (cbn [forallb] in Hd; apply andb_true_iff in Hd; tauto).
  assert (Hrest : match rest with [] => true | c :: _ => negb (is_digit c) end = true).
  { destruct rest as [|c rest]; [reflexivity|]. cbn [ends_number] in Hr.
    apply negb_true_iff in Hr. apply negb_true_iff.
    destruct (is_digit c); [discriminate | reflexivity]. }
  unfold parseFloat.
  assert (Ht : trim_start ((c0 :: d) ++ rest) = (c0 :: d) ++ rest)
    by (cbn [app trim_start]; rewrite (digit_not_whitespace c0 Hc0); reflexivity).
  rewrite Ht.
  assert (Hb : (0x30 <= c0 <= 0x39)%N).
  { unfold is_digit in Hc0. apply andb_true_iff in Hc0 as [H1 H2].
    apply N.leb_le in H1. apply N.leb_le in H2. lia. }
  assert (Hs : take_sign ((c0 :: d) ++ rest) = (false, (c0 :: d) ++ rest)).
  { cbn [app take_sign].
    rewrite (proj2 (N.eqb_neq c0 0x2B)) by lia.
    rewrite (proj2 (N.eqb_neq c0 0x2D)) by lia. reflexivity. }
  rewrite Hs. unfold parse_unsigned.
  assert (Hi : starts_with (lit "Infinity") ((c0 :: d) ++ rest) = false).
  { cbn [app]. change (lit "Infinity") with (0x49%N :: lit "nfinity").
    cbn [starts_with]. rewrite (proj2 (N.eqb_neq 0x49 c0)) by lia.
    reflexivity. }
  rewrite Hi, (span_digits_app (c0 :: d) rest Hd Hrest).
  destruct rest as [|c rest]; [reflexivity|].
  cbn [ends_number] in Hr. apply negb_true_iff in Hr.
  apply orb_false_iff in Hr as [Hr He2].
  apply orb_false_iff in Hr as [Hr He1].
  apply orb_false_iff in Hr as [_ Hp].
  rewrite Hp. unfold parse_exponent. rewrite He1, He2. reflexivity.
Qed.

(** [parseFloat] on a few literals: round to nearest with ties to even,
    overflow to [infinity], the smallest subnormal, underflow to zero, the
    negative zero, and the prefixes that the grammar stops at. *)
Lemma parseFloat_examples :
  parseFloat (lit "0.1") = 0x1.999999999999ap-4
  /\ parseFloat (lit "1e23") = 0x1.52d02c7e14af6p+76
  /\ parseFloat (lit "123.456") = 0x1.edd2f1a9fbe77p+6
  /\ parseFloat (lit "9007199254740993") = 0x1p+53
  /\ parseFloat (lit "9007199254740995") = 0x1.0000000000002p+53
  /\ parseFloat (lit "1.7976931348623157e308") = 0x1.fffffffffffffp+1023
  /\ parseFloat (lit "1.7976931348623159e308") = infinity
  /\ parseFloat (lit "5e-324") = 0x1p-1074
  /\ parseFloat (lit "2.5e-324") = 0x1p-1074
  /\ parseFloat (lit "2e-324") = 0
  /\ parseFloat (lit "-0") = neg_zero
  /\ parseFloat (lit "-Infinity") = neg_infinity
  /\ parseFloat (lit "  .5e1x") = 5
  /\ parseFloat (lit "1e+") = 1
  /\ parseFloat (lit "1.e2") = 100
  /\ parseFloat (lit "0x10") = 0
  /\ parseFloat (lit "") = nan
  /\ parseFloat (lit ".") = nan
  /\ parseFloat (lit "+-1") = nan
  /\ parseFloat (lit "e5") = nan.
Proof. repeat split; vm_compute; reflexivity. Qed.

(** *** Which strings [parseFloat] turns into NaN *)

Lemma SFldexp_not_nan (x : spec_float) (e : Z) :
  x <> S754_nan -> SFldexp prec emax x e <> S754_nan.
Proof.
  destruct x as [s|s| |s m ex]; cbn [SFldexp]; try congruence. intros _.
  destruct (binary_round_cases s m (ex + e)) as [E | [E | (m' & e' & E)]];
    rewrite E; discriminate.
Qed.

(** The number that a spec value other than NaN denotes is not NaN. *)
Lemma SF2Prim_not_nan (x : spec_float) :
  x <> S754_nan -> is_nan (SF2Prim x) = false.
Proof.
  intros Hx. destruct x as [[]|[]| |s m e]; try reflexivity; try congruence.
  unfold SF2Prim.
  assert (Hl : is_nan (Z.ldexp (of_uint63 (Uint63Axioms.of_Z (Z.pos m))) e) = false).
  { apply is_nan_false. rewrite Z_ldexp_spec. apply SFldexp_not_nan.
    rewrite of_uint63_spec. apply binary_normalize_not_nan. }
  destruct s; [|exact Hl].
  apply is_nan_false in Hl. apply is_nan_false. rewrite opp_spec.
  destruct (Prim2SF (Z.ldexp (of_uint63 (Uint63Axioms.of_Z (Z.pos m))) e));
    cbn; congruence.
Qed.

Lemma opp_not_nan (x : float) : is_nan x = false -> is_nan (- x) = false.
Proof.
  rewrite !is_nan_false, opp_spec. destruct (Prim2SF x); cbn; congruence.
Qed.

Lemma round_decimal_not_nan (mant exp : Z) :
  (0 <= mant)%Z -> round_decimal mant exp <> S754_nan.
Proof.
  intros Hm. unfold round_decimal, SFdiv_core_binary.
  set (num := (mant * 10 ^ Z.max exp 0)%Z).
  set (den := (10 ^ Z.max (- exp) 0)%Z).
  assert (Hden : (0 < den)%Z) by (apply Z.pow_pos_nonneg; lia).
  assert (Hnum : (0 <= num)%Z)
    by (apply Z.mul_nonneg_nonneg; [exact Hm | apply Z.pow_nonneg; lia]).
  set (e' := Z.min _ _).
  set (m' := match (0 - 0 - e')%Z with
             | Z.pos _ => Z.shiftl num (0 - 0 - e')
             | 0%Z => num
             | Z.neg _ => 0%Z
             end).
  assert (Hm' : (0 <= m')%Z).
  { unfold m'. destruct (0 - 0 - e')%Z; try lia.
    apply Z.shiftl_nonneg. exact Hnum. }
  assert (Eq : Z.div_eucl m' den = (m' / den, m' mod den)%Z).
  { unfold Z.div, Z.modulo. destruct (Z.div_eucl m' den). reflexivity. }
  rewrite Eq. apply binary_round_aux_not_nan.
  apply Z.div_pos; assumption.
Qed.

Lemma digits_value_nonneg (d : jsstring) :
  forallb is_digit d = true -> (0 <= digits_value d)%Z.
Proof.
  unfold digits_value.
  assert (G : forall acc, (0 <= acc)%Z -> forallb is_digit d = true ->
              (0 <= fold_left (fun a c => (10 * a + digit_value c)%Z) d acc)%Z).
  { induction d as [|c d IH]; intros acc Ha Hd; [exact Ha|].
    cbn [forallb] in Hd. apply andb_true_iff in Hd as [Hc Hd].
    cbn [fold_left]. apply IH; [|exact Hd].
    unfold is_digit in Hc. apply andb_true_iff in Hc as [H1 _].
    apply N.leb_le in H1. unfold digit_value. lia. }
  apply G. lia.
Qed.

Lemma span_digits_spec (s : jsstring) :
  forallb is_digit (fst (span_digits s)) = true
  /\ fst (span_digits s) ++ snd (span_digits s) = s
  /\ match snd (span_digits s) with
     | c :: _ => is_digit c = false
     | [] => True
     end.
Proof.
  induction s as [|c s IH]; cbn [span_digits]; [repeat split|].
  destruct (is_digit c) eqn:Ec.
  - destruct (span_digits s) as [d r]. cbn [fst snd] in *.
    destruct IH as (H1 & H2 & H3).
    cbn [forallb app]. rewrite Ec, H1, H2. repeat split. exact H3.
  - cbn [fst snd forallb app]. repeat split. exact Ec.
Qed.

Lemma span_digits_head (c : code_unit) (s : jsstring) :
  fst (span_digits (c :: s)) = [] <-> is_digit c = false.
Proof.
  cbn [span_digits]. destruct (is_digit c).
  - destruct (span_digits s). cbn. split; discriminate.
  - cbn. split; reflexivity.
Qed.

(** A literal that the parser finds denotes a number. *)
Lemma parse_unsigned_number (neg : bool) (u : jsstring) (l : literal) :
  parse_unsigned neg u = Some l -> isNaN (literal_value l) = false.
Proof.
  assert (D : forall n m e,
             (0 <= m)%Z -> isNaN (literal_value (LitDecimal n m e)) = false).
  { intros n m e Hm. unfold isNaN. cbn [literal_value].
    assert (Ha : is_nan (if (m =? 0)%Z then PrimFloat.zero
                         else SF2Prim (round_decimal m e)) = false).
    { destruct (m =? 0)%Z; [reflexivity|].
      apply SF2Prim_not_nan. apply round_decimal_not_nan. exact Hm. }
    destruct n; [apply opp_not_nan|]; exact Ha. }
  unfold parse_unsigned.
  destruct (starts_with (lit "Infinity") u).
  { intros [= <-]. destruct neg; reflexivity. }
  destruct (span_digits_spec u) as (Hip & _ & _).
  destruct (span_digits u) as [ip s1]. cbn [fst] in Hip.
  destruct s1 as [|c s2].
  - destruct ip; [discriminate|]. intros [= <-].
    apply D. apply digits_value_nonneg. exact Hip.
  - destruct (c =? 0x2E)%N.
    + destruct (span_digits_spec s2) as (Hfp & _ & _).
      destruct (span_digits s2) as [fp s3]. cbn [fst] in Hfp.
      assert (Hall : forallb is_digit (ip ++ fp) = true)
        by (rewrite forallb_app, Hip, Hfp; reflexivity).
      destruct ip, fp; try discriminate; intros [= <-];
        apply D; apply digits_value_nonneg; exact Hall.
    + destruct ip; [discriminate|]. intros [= <-].
      apply D. apply digits_value_nonneg. exact Hip.
Qed.

(** The parser finds no literal exactly where none can start. *)
Lemma parse_unsigned_None (neg : bool) (u : jsstring) :
  parse_unsigned neg u = None <-> numeric_start u = false.
Proof.
  unfold parse_unsigned, numeric_start.
  destruct (starts_with (lit "Infinity") u); [split; discriminate|].
  cbn [orb].
  destruct u as [|c r].
  - cbn. split; reflexivity.
  - pose proof (span_digits_head c r) as Hh.
    destruct (span_digits_spec (c :: r)) as (_ & Happ & Hrest).
    destruct (span_digits (c :: r)) as [ip s1]. cbn [fst snd] in *.
    destruct (is_digit c) eqn:Ec.
    + cbn [orb].
      assert (Hne : ip <> []) by (intros E; apply Hh in E; discriminate).
      destruct s1 as [|c1 s2].
      * destruct ip; [contradiction | split; discriminate].
      * destruct (c1 =? 0x2E)%N.
        -- destruct (span_digits s2) as [fp s3].
           destruct ip; [contradiction|]. destruct fp; split; discriminate.
        -- destruct ip; [contradiction | split; discriminate].
    + cbn [orb].
      assert (E : ip = []) by (apply Hh; reflexivity).
      subst ip. cbn [app] in Happ. subst s1.
      destruct (c =? 0x2E)%N; cbn [andb]; [|split; reflexivity].
      pose proof (fun d r' => span_digits_head d r') as Hh2.
      destruct r as [|d r'].
      * cbn. split; reflexivity.
      * specialize (Hh2 d r').
        destruct (span_digits (d :: r')) as [fp s3]. cbn [fst] in Hh2.
        destruct fp.
        -- split; [intros _; apply Hh2; reflexivity | reflexivity].
        -- split; [discriminate|]. intros Hd.
           apply Hh2 in Hd. discriminate.
Qed.

(** [parseFloat] is NaN exactly on the strings without a numeric prefix. *)
Lemma parseFloat_nan (t : jsstring) :
  isNaN (parseFloat t) = negb (has_numeric_prefix t).
Proof.
  unfold parseFloat, has_numeric_prefix.
  destruct (take_sign (trim_start t)) as [neg u]. cbn [snd].
  destruct (parse_unsigned neg u) as [l|] eqn:E.
  - rewrite (parse_unsigned_number neg u l E).
    destruct (numeric_start u) eqn:N; [reflexivity|].
    apply parse_unsigned_None with (neg := neg) in N. congruence.
  - apply parse_unsigned_None in E. rewrite E. reflexivity.
Qed.

(** C10: a token that starts with digits and goes on with other code units
    is read as its digits and kept: ["2px"] gives [2], as the token ["2"]
    does, while ["px"] has no numeric prefix and is dropped.  In general the
    numbers returned are the values of the tokens that have a numeric
    prefix, and [parseFloat] is NaN on the others only. *)
Theorem numeric_prefix_is_kept :
  parseVectorString (lit "2px") = [2]
  /\ parseVectorString (lit "a, 2px, b") = [2]
  /\ parseFloat (lit "2px") = parseFloat (lit "2")
  /\ lit "2px" = lit "2" ++ lit "px"
  /\ isNaN (parseFloat (lit "px")) = true
  /\ parseVectorString (lit "px") = []
  /\ (forall d rest : jsstring,
         d <> [] -> forallb is_digit d = true -> ends_number rest = true ->
         parseFloat (d ++ rest) = parseFloat d)
  /\ (forall t : jsstring,
         isNaN (parseFloat t) = negb (has_numeric_prefix t))
  /\ (forall (input : jsstring) (n : number),
         In n (parseVectorString input)
         <-> exists t, In t (tokens input)
                       /\ has_numeric_prefix t = true /\ parseFloat t = n).
Proof.
  do 6 (split; [vm_compute; reflexivity|]).
  split; [|split].
  - intros d rest Hne Hd Hr.
    rewrite (parseFloat_digits d rest Hne Hd Hr).
    rewrite <- (app_nil_r d) at 2.
    rewrite (parseFloat_digits d [] Hne Hd eq_refl). reflexivity.
  - exact parseFloat_nan.
  - intros input n. rewrite parseVectorString_tokens, filter_In, in_map_iff.
    split.
    + intros [(t & <- & Ht) Hn]. exists t.
      rewrite parseFloat_nan, negb_involutive in Hn. auto.
    + intros (t & Ht & Hp & <-). split; [eauto|].
      rewrite parseFloat_nan, Hp. reflexivity.
Qed.

Lemma numeric_prefix_is_kept_witness :
  parseFloat (lit "37" ++ lit "kg") = parseFloat (lit "37").
Proof.
  pose proof numeric_prefix_is_kept as (_ & _ & _ & _ & _ & _ & Hp & _).
  apply Hp; [discriminate | reflexivity | reflexivity].
Defined.

End Parser.

(** ** The two functions on the heap *)

Section HeapTheorems.
Import JS JSString MathUtils.
Local Open Scope float_scope.
Context `{MathLib}.

Lemma heap_for_loop (vecA vecB : Heap.ref) (h : Heap.heap) (remaining : nat) :
  forall (i : nat) (s : Sums),
    Heap.for_loop vecA vecB remaining i s h
    = (for_loop (Heap.numbers_at h vecA) (Heap.numbers_at h vecB)
         remaining i s, h).
Proof.
  induction remaining as [|r IH]; intros i s; [reflexivity|].
  cbn [Heap.for_loop for_loop].
  unfold Heap.bind, Heap.get_index. rewrite IH. reflexivity.
Qed.

Lemma heap_calculate (vecA vecB : Heap.ref) (h : Heap.heap) :
  Heap.calculateCosineSimilarity vecA vecB h
  = (calculateCosineSimilarity (Heap.numbers_at h vecA)
       (Heap.numbers_at h vecB), h).
Proof.
  unfold Heap.calculateCosineSimilarity, calculateCosineSimilarity, rejects.
  unfold Heap.bind, Heap.get_length.
  destruct ((length (Heap.numbers_at h vecA) =? 0)%nat
            || (length (Heap.numbers_at h vecB) =? 0)%nat
            || negb (length (Heap.numbers_at h vecA)
                     =? length (Heap.numbers_at h vecB))%nat);
    [reflexivity|].
  rewrite heap_for_loop. reflexivity.
Qed.

Lemma numbers_at_last (h : Heap.heap) (l : list number) :
  Heap.numbers_at (h ++ [Heap.Numbers l]) (length h) = l.
Proof.
  unfold Heap.numbers_at. rewrite nth_error_app2 by lia.
  rewrite Nat.sub_diag. reflexivity.
Qed.

Lemma strings_at_last (h : Heap.heap) (l : list jsstring) :
  Heap.strings_at (h ++ [Heap.Strings l]) (length h) = l.
Proof.
  unfold Heap.strings_at. rewrite nth_error_app2 by lia.
  rewrite Nat.sub_diag. reflexivity.
Qed.

Lemma heap_parse (input : jsstring) (h : Heap.heap) :
  Heap.parseVectorString input h
  = (S (S (length h)),
     h ++ [Heap.Strings (split_separators input);
           Heap.Numbers (map (fun s => parseFloat (trim s))
                           (split_separators input));
           Heap.Numbers (parseVectorString input)]).
Proof.
  unfold Heap.parseVectorString, Heap.bind, Heap.alloc, Heap.get_strings,
    Heap.get_numbers.
  rewrite strings_at_last, numbers_at_last.
  rewrite !length_app. cbn [length].
  rewrite <- !app_assoc. cbn [app].
  f_equal. lia.
Qed.

(** C7: the routine leaves the heap as it found it and its result depends
    only on the numbers in its two arrays, so equal arrays give equal
    results wherever they live; the parser only appends new arrays to the
    heap, and the array it returns holds a list that depends on the input
    string alone. *)
Theorem functions_are_pure
  (h h' : Heap.heap) (vecA vecB vecA' vecB' : Heap.ref) (input : jsstring) :
  Heap.numbers_at h vecA = Heap.numbers_at h' vecA' ->
  Heap.numbers_at h vecB = Heap.numbers_at h' vecB' ->
  fst (Heap.calculateCosineSimilarity vecA vecB h)
  = fst (Heap.calculateCosineSimilarity vecA' vecB' h')
  /\ fst (Heap.calculateCosineSimilarity vecA vecB h)
     = calculateCosineSimilarity (Heap.numbers_at h vecA)
         (Heap.numbers_at h vecB)
  /\ snd (Heap.calculateCosineSimilarity vecA vecB h) = h
  /\ (exists fresh,
         snd (Heap.parseVectorString input h) = h ++ fresh)
  /\ (length h <= fst (Heap.parseVectorString input h))%nat
  /\ Heap.numbers_at (snd (Heap.parseVectorString input h))
       (fst (Heap.parseVectorString input h))
     = parseVectorString input
  /\ Heap.numbers_at (snd (Heap.parseVectorString input h'))
       (fst (Heap.parseVectorString input h'))
     = Heap.numbers_at (snd (Heap.parseVectorString input h))
         (fst (Heap.parseVectorString input h)).
Proof.
  intros Ea Eb.
  assert (P : forall g,
             Heap.numbers_at (snd (Heap.parseVectorString input g))
               (fst (Heap.parseVectorString input g))
             = parseVectorString input).
  { intros g. rewrite heap_parse. cbn [fst snd].
    unfold Heap.numbers_at.
    rewrite nth_error_app2 by lia.
    replace (S (S (length g)) - length g)%nat with 2%nat by lia.
    reflexivity. }
  rewrite !heap_calculate. cbn [fst snd]. rewrite Ea, Eb.
  repeat split.
  - rewrite heap_parse. cbn [snd]. eauto.
  - rewrite heap_parse. cbn [fst]. lia.
  - apply P.
  - rewrite !P. reflexivity.
Qed.

End HeapTheorems.

Section HeapWitness.
Import JS JSString MathUtils.
Local Open Scope float_scope.

Lemma functions_are_pure_witness :
  fst (@Heap.calculateCosineSimilarity acos_at_0_and_1 0%nat 1%nat
         [Heap.Numbers [3; 0]; Heap.Numbers [0; 4]])
  = fst (@Heap.calculateCosineSimilarity acos_at_0_and_1 2%nat 0%nat
           [Heap.Numbers [0; 4]; Heap.Strings []; Heap.Numbers [3; 0]]).
Proof.
  apply (@functions_are_pure acos_at_0_and_1
           [Heap.Numbers [3; 0]; Heap.Numbers [0; 4]]
           [Heap.Numbers [0; 4]; Heap.Strings []; Heap.Numbers [3; 0]]
           0%nat 1%nat 2%nat 0%nat []);
    reflexivity.
Defined.

End HeapWitness.

(** ** The rotation state of the 3D view *)

Section Rotation.
Import JS VectorChart.
Local Open Scope float_scope.

Lemma half_spec : Prim2SF 0.5 = S754_finite false 4503599627370496 (-53).
Proof. reflexivity. Qed.

(** The pitch written by a move is the clamped sum, whatever the sum. *)
Lemma rotate_pitch (deltaX deltaY : number) (prev : Rotation) :
  pitch (rotate deltaX deltaY prev)
  = clamp_between (-90) 90 (pitch prev + deltaY * 0.5).
Proof.
  unfold rotate. cbn [pitch].
  apply Math_max_min_clamp; reflexivity.
Qed.

Lemma rotate_pitch_range (deltaX deltaY : number) (prev : Rotation) :
  isNaN (pitch prev + deltaY * 0.5) = false ->
  (-90 <=? pitch (rotate deltaX deltaY prev)) = true
  /\ (pitch (rotate deltaX deltaY prev) <=? 90) = true.
Proof.
  intros Hn. unfold rotate. cbn [pitch].
  apply Math_max_min_range; try reflexivity. exact Hn.
Qed.

Lemma initial_invariant : rotation_invariant initial.
Proof. repeat split. Qed.

Lemma step_invariant (st : State) (ev : Event) :
  rotation_invariant st -> finite_event ev = true ->
  rotation_invariant (step st ev).
Proof.
  intros [[Hlo Hhi] Hlast] Hev.
  destruct ev as [e|e| |]; cbn [step finite_event] in *.
  - split; [split; assumption | exact Hev].
  - unfold handleMouseMove. destruct (isDragging st); cbn [negb].
    + split; [|exact Hev]. unfold pitch_in_range. cbn [rotation].
      apply rotate_pitch_range.
      unfold finite_mouse in Hev, Hlast.
      apply andb_true_iff in Hev as [_ Hy].
      apply andb_true_iff in Hlast as [_ Hly].
      apply add_not_nan.
      * apply (between_finite (-90) 90); try reflexivity; assumption.
      * apply (mul_not_nan _ _ _ _ _ half_spec).
        apply sub_not_nan; assumption.
    + split; [split; assumption | exact Hlast].
  - split; [split; assumption | exact Hlast].
  - split; [split; assumption | exact Hlast].
Qed.

Lemma fold_invariant (evs : list Event) :
  forall st, rotation_invariant st -> finite_events evs ->
             rotation_invariant (fold_left step evs st).
Proof.
  induction evs as [|ev evs IH]; intros st Hst Hevs; cbn [fold_left].
  - exact Hst.
  - inversion Hevs as [|? ? Hev Hrest]; subst.
    apply IH; [apply step_invariant; assumption | exact Hrest].
Qed.

Lemma ltb_infinity (b : float) : is_finite b = true -> (b <? infinity) = true.
Proof.
  rewrite is_finite_spec, FloatAxioms.ltb_spec. unfold SFltb.
  destruct (Prim2SF b) as [s|s| |s m e]; cbn; congruence.
Qed.

(** C8: the pitch starts at -20; in every state reached by mouse events with
    finite coordinates it is within [-90, 90]; a move while dragging writes
    the sum [prev.x + deltaY * 0.5] clamped to that range as pitch and the
    unclamped [prev.y + deltaX * 0.5] as yaw; the yaw exceeds every finite
    bound in some reachable state. *)
Theorem rotation_pitch_invariant (evs : list Event) :
  finite_events evs ->
  pitch (rotation initial) = -20
  /\ pitch_in_range (run evs)
  /\ (forall e : MouseEvent,
         isDragging (run evs) = true ->
         rotation (step (run evs) (MouseMove e))
         = {| pitch :=
                clamp_between (-90) 90
                  (pitch (rotation (run evs))
                   + (clientY e - clientY (lastMousePos (run evs))) * 0.5);
              yaw :=
                yaw (rotation (run evs))
                + (clientX e - clientX (lastMousePos (run evs))) * 0.5 |})
  /\ (forall bound : number,
         is_finite bound = true ->
         exists evs' : list Event,
           finite_events evs' /\ (bound <? yaw (rotation (run evs'))) = true).
Proof.
  intros Hevs. split; [reflexivity|]. split; [|split].
  - apply (fold_invariant evs initial initial_invariant Hevs).
  - intros e Hd. cbn [step]. unfold handleMouseMove. rewrite Hd. cbn [negb rotation].
    rewrite <- rotate_pitch with (deltaX := clientX e - clientX (lastMousePos (run evs))).
    reflexivity.
  - intros bound Hb. exists wide_drag. split.
    + repeat constructor.
    + change (yaw (rotation (run wide_drag))) with infinity.
      apply ltb_infinity. exact Hb.
Qed.

Lemma rotation_pitch_invariant_witness :
  pitch_in_range
    (run [MouseDown {| clientX := 10; clientY := 10 |};
          MouseMove {| clientX := 400; clientY := 500 |};
          MouseUp]).
Proof.
  refine (proj1 (proj2 (rotation_pitch_invariant _ _))).
  repeat constructor.
Defined.

End Rotation.

(** ** The 2D scale *)

Section Scale.
Import JS VectorChart.
Local Open Scope float_scope.

Lemma ge_one_normal (x : float) :
  (1 <=? x) = true -> is_finite x = true -> normal_ge_one (Prim2SF x).
Proof.
  rewrite FloatAxioms.leb_spec, is_finite_spec.
  change (Prim2SF 1) with (S754_finite false 4503599627370496 (-52)).
  pose proof (Prim2SF_valid x) as Hv. unfold SFleb.
  destruct (Prim2SF x) as [s|s| |s m e]; cbn [SFcompare SFfinite];
    try discriminate.
  destruct s; [discriminate|]. intros Hc _.
  assert (He : (-52 <= e)%Z).
  { destruct (Z.compare_spec (-52) e); first [lia | discriminate]. }
  cbn in Hv. unfold bounded, canonical_mantissa, fexp, SpecFloat.emin in Hv.
  apply andb_true_iff in Hv as [Hc1 Hc2].
  apply Z.eqb_eq in Hc1. apply Z.leb_le in Hc2.
  exists m, e. repeat split; try lia.
  - change prec with 53%Z in *. change emax with 1024%Z in *. lia.
  - change prec with 53%Z in *. change emax with 1024%Z in *. lia.
Qed.

(** The padded maximum [x * 1.2] of such a number is again one, or
    [infinity]. *)
Lemma pad_normal (x : float) :
  normal_ge_one (Prim2SF x) ->
  Prim2SF (x * 0x1.3333333333333p+0) = S754_infinity false
  \/ normal_ge_one (Prim2SF (x * 0x1.3333333333333p+0)).
Proof.
  intros (m & e & Ex & Dm & He).
  rewrite mul_spec, Ex.
  change (Prim2SF 0x1.3333333333333p+0)
    with (S754_finite false 5404319552844595 (-52)).
  unfold SF64mul. cbn [SFmul xorb].
  set (p := Z.pos (m * 5404319552844595)).
  assert (Hp : (0 < p)%Z) by (unfold p; lia).
  assert (Dp : (105 <= Zdigits2 p <= 106)%Z).
  { rewrite Zdigits2_log2 by exact Hp.
    assert (Lm : Z.log2 (Z.pos m) = 52%Z)
      by (pose proof (digits2_log2 m); lia).
    unfold p. rewrite Pos2Z.inj_mul.
    pose proof (Z.log2_mul_below (Z.pos m) 5404319552844595) as Hb.
    pose proof (Z.log2_mul_above (Z.pos m) 5404319552844595) as Ha.
    change (Z.log2 5404319552844595) with 52%Z in *.
    lia. }
  destruct (binary_round_aux_normal false p (e + -52) loc_Exact Hp)
    as [(m' & e' & -> & Dm' & He' & Hmax) | [-> _]].
  - change prec with 53%Z. lia.
  - unfold SpecFloat.emin. change prec with 53%Z. change emax with 1024%Z. lia.
  - right. exists m', e'. change prec with 53%Z in *. change emax with 1024%Z in *.
    repeat split; lia.
  - left. reflexivity.
Qed.

(** [130 / y] for such a [y] is finite and positive. *)
Lemma quotient_normal (y : float) :
  normal_ge_one (Prim2SF y) ->
  exists (m : positive) (e : Z), Prim2SF (130 / y) = S754_finite false m e.
Proof.
  intros (my & ey & Ey & Dm & He).
  rewrite div_spec, Ey.
  change (Prim2SF 130) with (S754_finite false 4573968371548160 (-45)).
  unfold SF64div. cbn [SFdiv xorb]. unfold SFdiv_core_binary.
  change (Zdigits2 (Z.pos 4573968371548160)) with 53%Z.
  cbn [Zdigits2]. rewrite Dm.
  replace (Z.min (fexp prec emax (53 + -45 - (53 + ey))) (-45 - ey))
    with (-98 - ey)%Z
    by (unfold fexp, SpecFloat.emin; change prec with 53%Z;
        change emax with 1024%Z; lia).
  replace (-45 - ey - (-98 - ey))%Z with 53%Z by lia.
  set (K := Z.shiftl (Z.pos 4573968371548160) 53).
  pose proof (Zdigits2_bounds (Z.pos my) ltac:(lia)) as Bm.
  cbn [Zdigits2] in Bm. rewrite Dm in Bm.
  change (2 ^ (53 - 1))%Z with 4503599627370496%Z in Bm.
  change (2 ^ 53)%Z with 9007199254740992%Z in Bm.
  assert (Eq : Z.div_eucl K (Z.pos my) = (K / Z.pos my, K mod Z.pos my)%Z).
  { unfold Z.div, Z.modulo. destruct (Z.div_eucl K (Z.pos my)). reflexivity. }
  rewrite Eq. set (q := (K / Z.pos my)%Z).
  assert (Bq : (4503599627370496 <= q < 18014398509481984)%Z).
  { unfold q. split.
    - apply Z.div_le_lower_bound; [lia|]. unfold K. cbn. lia.
    - apply Z.div_lt_upper_bound; [lia|]. unfold K. cbn. lia. }
  assert (Hq : (0 < q)%Z) by lia.
  assert (Dq : (53 <= Zdigits2 q <= 54)%Z).
  { destruct (Z_lt_le_dec q 9007199254740992).
    - rewrite (Zdigits2_unique q 53); [lia | lia |].
      change (2 ^ (53 - 1))%Z with 4503599627370496%Z.
      change (2 ^ 53)%Z with 9007199254740992%Z. lia.
    - rewrite (Zdigits2_unique q 54); [lia | lia |].
      change (2 ^ (54 - 1))%Z with 9007199254740992%Z.
      change (2 ^ 54)%Z with 18014398509481984%Z. lia. }
  destruct (binary_round_aux_normal false q (-98 - ey)
              (new_location (Z.pos my) (K mod Z.pos my)) Hq)
    as [(m' & e' & -> & _) | [_ Hov]].
  - change prec with 53%Z. lia.
  - unfold SpecFloat.emin. change prec with 53%Z. change emax with 1024%Z. lia.
  - eauto.
  - change emax with 1024%Z in Hov. lia.
Qed.

End Scale.

Section ScaleTheorem.
Import JS VectorChart.
Local Open Scope float_scope.

Lemma center_minus_20 : center - 20 = 130.
Proof. reflexivity. Qed.

Lemma finite_nonneg_cases (x : float) :
  (exists s m e, Prim2SF x = S754_finite s m e /\ s = false)
  \/ Prim2SF x = S754_zero false ->
  is_finite x = true /\ (0 <=? x) = true.
Proof.
  rewrite is_finite_spec, FloatAxioms.leb_spec.
  intros [(s & m & e & -> & ->) | ->]; split; reflexivity.
Qed.

Lemma scale_cases (vecA vecB : list number) :
  all_finite [index vecA 0; index vecA 1; index vecB 0; index vecB 1] ->
  (Prim2SF (maxVal vecA vecB) = S754_infinity false
   /\ Prim2SF (scale vecA vecB) = S754_zero false)
  \/ (normal_ge_one (Prim2SF (maxVal vecA vecB))
      /\ exists m e, Prim2SF (scale vecA vecB) = S754_finite false m e).
Proof.
  intros Hf. unfold scale. rewrite center_minus_20. unfold maxVal.
  set (M := Math_max [Math_abs (index vecA 0); Math_abs (index vecA 1);
                      Math_abs (index vecB 0); Math_abs (index vecB 1); 1]).
  assert (HM : is_finite M = true /\ (1 <=? M) = true).
  { destruct (Math_max_finite (Math_abs (index vecA 0))
                [Math_abs (index vecA 1); Math_abs (index vecB 0);
                 Math_abs (index vecB 1); 1]) as [F G].
    - unfold all_finite in *.
      inversion Hf as [|? ? H0 Hf1]; subst.
      inversion Hf1 as [|? ? H1 Hf2]; subst.
      inversion Hf2 as [|? ? H2 Hf3]; subst.
      inversion Hf3 as [|? ? H3 _]; subst.
      repeat constructor; apply abs_finite; assumption.
    - split; [exact F|]. apply G. cbn. tauto. }
  destruct HM as [F G].
  destruct (pad_normal M (ge_one_normal M G F)) as [Hinf | Hn].
  - left. split; [exact Hinf|].
    rewrite div_spec, Hinf. reflexivity.
  - right. split; [exact Hn|]. apply quotient_normal. exact Hn.
Qed.

(** C9 (amended): the 2D projector maps [(px, py)] to
    [(center + px * scale, center - py * scale)], with
    [scale = (center - 20) / maxVal] and
    [maxVal = 1.2 * max(|a0|, |a1|, |b0|, |b1|, 1)]; for finite components
    the maximum is at least 1, the scale is finite and not negative, it is
    positive exactly when [maxVal] is finite, and the origin is drawn at the
    center of the canvas. *)
Theorem scale_finite_nonnegative (a0 a1 b0 b1 px py : number) :
  all_finite [a0; a1; b0; b1] ->
  let vecA := [a0; a1] in
  let vecB := [b0; b1] in
  maxVal vecA vecB
  = Math_max [Math_abs a0; Math_abs a1; Math_abs b0; Math_abs b1; 1]
    * 0x1.3333333333333p+0
  /\ (1 <=? Math_max [Math_abs a0; Math_abs a1; Math_abs b0; Math_abs b1; 1])
     = true
  /\ scale vecA vecB = (center - 20) / maxVal vecA vecB
  /\ getCoord vecA vecB px py
     = {| x := center + px * scale vecA vecB;
          y := center - py * scale vecA vecB |}
  /\ is_finite (scale vecA vecB) = true
  /\ (0 <=? scale vecA vecB) = true
  /\ ((0 <? scale vecA vecB) = true <-> is_finite (maxVal vecA vecB) = true)
  /\ getCoord vecA vecB 0 0 = {| x := center; y := center |}.
Proof.
  intros Hf vecA vecB.
  split; [reflexivity|]. split.
  { destruct (Math_max_finite (Math_abs a0)
                [Math_abs a1; Math_abs b0; Math_abs b1; 1]) as [_ G].
    - unfold all_finite in *.
      inversion Hf as [|? ? H0 Hf1]; subst.
      inversion Hf1 as [|? ? H1 Hf2]; subst.
      inversion Hf2 as [|? ? H2 Hf3]; subst.
      inversion Hf3 as [|? ? H3 _]; subst.
      repeat constructor; apply abs_finite; assumption.
    - apply G. cbn. tauto. }
  split; [reflexivity|]. split; [reflexivity|].
  destruct (scale_cases vecA vecB Hf) as [[Hm Hs] | [(m & e & Hm & _) (ms & es & Hs)]].
  - assert (Z0 : (0 * scale vecA vecB) = 0)
      by (apply Prim2SF_inj; rewrite mul_spec, Hs; reflexivity).
    repeat split.
    + rewrite is_finite_spec, Hs. reflexivity.
    + rewrite FloatAxioms.leb_spec, Hs. reflexivity.
    + rewrite FloatAxioms.ltb_spec, Hs. discriminate.
    + rewrite is_finite_spec, Hm. discriminate.
    + unfold getCoord. rewrite Z0. reflexivity.
  - assert (Z0 : (0 * scale vecA vecB) = 0).
    { apply Prim2SF_inj. rewrite mul_spec, Hs. reflexivity. }
    repeat split.
    + rewrite is_finite_spec, Hs. reflexivity.
    + rewrite FloatAxioms.leb_spec, Hs. reflexivity.
    + rewrite is_finite_spec, Hm. reflexivity.
    + rewrite FloatAxioms.ltb_spec, Hs. reflexivity.
    + unfold getCoord. rewrite Z0. reflexivity.
Qed.

Lemma scale_finite_nonnegative_witness :
  is_finite (scale [2; 1] [1; 3]) = true
  /\ (0 <=? scale [2; 1] [1; 3]) = true.
Proof.
  pose proof (scale_finite_nonnegative 2 1 1 3 0 0) as T.
  cbv zeta in T.
  refine ((fun P => conj (proj1 (proj2 (proj2 (proj2 (proj2 P)))))
                         (proj1 (proj2 (proj2 (proj2 (proj2 (proj2 P)))))))
            (T _)).
  repeat constructor.
Defined.

(** C9 as stated fails: with a finite component above about 1.5e308 the
    padded maximum overflows to [infinity] and the scale is 0, which is not
    positive; the vectors [1.6e308, 0] and [0, 0] are such a pair. *)
Lemma scale_not_positive :
  MathUtils.parseVectorString (JSString.lit "1.6e308, 0") = [sixteen_to_307; 0]
  /\ all_finite [sixteen_to_307; 0; 0; 0]
  /\ maxVal [sixteen_to_307; 0] [0; 0] = infinity
  /\ scale [sixteen_to_307; 0] [0; 0] = 0
  /\ (0 <? scale [sixteen_to_307; 0] [0; 0]) = false.
Proof.
  split; [vm_compute; reflexivity|].
  split; [repeat constructor|]. repeat split.
Qed.

End ScaleTheorem.

(* ===================================================================== *)
(** * Part III: further properties of the code                           *)
(* ===================================================================== *)

(** ** The routine on swapped and on zero vectors *)

Section Symmetry.
Import JS JSString MathUtils.
Local Open Scope float_scope.
Context `{MathLib}.

Lemma SFmul_comm (x y : spec_float) :
  SFmul prec emax x y = SFmul prec emax y x.
Proof.
  destruct x as [s|s| |s m e], y as [s'|s'| |s' m' e']; cbn [SFmul];
    rewrite ?(xorb_comm s s'); try reflexivity.
  rewrite (Pos.mul_comm m m'), (Z.add_comm e e'). reflexivity.
Qed.

(** The binary64 product does not depend on the order of its factors. *)
Lemma mul_comm (x y : float) : x * y = y * x.
Proof.
  apply Prim2SF_inj. rewrite !mul_spec. apply SFmul_comm.
Qed.

Lemma products_comm (a : list number) :
  forall b, products a b = products b a.
Proof.
  induction a as [|x a IH]; intros [|y b]; cbn [products];
    try reflexivity.
  rewrite (mul_comm x y), IH. reflexivity.
Qed.

Lemma dot_comm (a b : list number) : dot a b = dot b a.
Proof. unfold dot. rewrite products_comm. reflexivity. Qed.

Lemma rejects_comm (a b : list number) : rejects a b = rejects b a.
Proof.
  unfold rejects.
  rewrite (Nat.eqb_sym (length a) (length b)).
  destruct (length a =? 0)%nat, (length b =? 0)%nat; reflexivity.
Qed.

(** Swapping the two vectors swaps the two magnitudes and changes nothing
    else: the dot product, the similarity, the angle and the dimension are
    the same, and one order is rejected exactly when the other is. *)
Theorem calculate_swap (vecA vecB : list number) :
  calculateCosineSimilarity vecB vecA
  = option_map swap_result (calculateCosineSimilarity vecA vecB).
Proof.
  unfold calculateCosineSimilarity. rewrite (rejects_comm vecB vecA).
  destruct (rejects vecA vecB) eqn:R; [reflexivity|].
  apply rejects_false in R as [_ Hl].
  rewrite (for_loop_whole vecA vecB Hl), (for_loop_whole vecB vecA (eq_sym Hl)).
  cbn [option_map]. f_equal.
  unfold result_of_sums, swap_result. cbn [accDot accSqA accSqB].
  rewrite (dot_comm vecB vecA), <- Hl.
  rewrite (orb_comm (strict_eq (Math_sqrt (dot vecB vecB)) 0)).
  rewrite (mul_comm (Math_sqrt (dot vecB vecB))).
  destruct (strict_eq (Math_sqrt (dot vecA vecA)) 0
            || strict_eq (Math_sqrt (dot vecB vecB)) 0); reflexivity.
Qed.

Lemma is_zero_spec (x : float) :
  is_zero x = true <-> exists s, Prim2SF x = S754_zero s.
Proof.
  unfold is_zero. rewrite FloatAxioms.eqb_spec.
  change (Prim2SF PrimFloat.zero) with (S754_zero false). unfold SFeqb.
  destruct (Prim2SF x) as [s|s| |s m e]; cbn.
  - split; eauto.
  - destruct s; split; try discriminate; intros [? ?]; discriminate.
  - split; try discriminate. intros [? ?]; discriminate.
  - destruct s; split; try discriminate; intros [? ?]; discriminate.
Qed.

Lemma zero_square (x : float) : is_zero x = true -> x * x = 0.
Proof.
  intros Hx. apply is_zero_spec in Hx as [s Hs].
  apply Prim2SF_inj. rewrite mul_spec, Hs. destruct s; reflexivity.
Qed.

Lemma zero_vector_dot (a : list number) : zero_vector a -> dot a a = 0.
Proof.
  unfold dot, sum. intros Ha.
  assert (G : forall acc, acc = 0 ->
              fold_left PrimFloat.add (products a a) acc = 0).
  { induction Ha as [|c a Hc _ IH]; intros acc ->; [reflexivity|].
    cbn [products fold_left]. apply IH.
    rewrite (zero_square c Hc). reflexivity. }
  apply G. reflexivity.
Qed.

(** A vector of zeros has magnitude 0, so with it the result is similarity 0
    and angle 0 whatever the other vector holds, NaN and infinities
    included. *)
Theorem zero_vector_similarity (vecA vecB : list number) :
  vecA <> [] ->
  length vecA = length vecB ->
  zero_vector vecA \/ zero_vector vecB ->
  exists r,
    calculateCosineSimilarity vecA vecB = Some r
    /\ cosineSimilarity r = 0 /\ angleDegrees r = 0
    /\ dotProduct r = dot vecA vecB
    /\ (zero_vector vecA -> magnitudeA r = 0)
    /\ (zero_vector vecB -> magnitudeB r = 0).
Proof.
  intros Ha Hl Hz.
  rewrite (calculate_accepted vecA vecB Ha Hl).
  eexists. split; [reflexivity|].
  unfold result_of_sums. cbn [accDot accSqA accSqB].
  assert (G : strict_eq (Math_sqrt (dot vecA vecA)) 0
              || strict_eq (Math_sqrt (dot vecB vecB)) 0 = true).
  { destruct Hz as [Hz | Hz]; rewrite (zero_vector_dot _ Hz).
    - reflexivity.
    - apply orb_true_r. }
  rewrite G. cbn [cosineSimilarity angleDegrees dotProduct magnitudeA magnitudeB].
  repeat split; intros Hz'; rewrite (zero_vector_dot _ Hz'); reflexivity.
Qed.

End Symmetry.

Section SymmetryWitness.
Import JS JSString MathUtils.
Local Open Scope float_scope.

Lemma zero_vector_similarity_witness :
  exists r,
    @calculateCosineSimilarity acos_at_0_and_1 [0; -0; 0] [1; nan; infinity]
    = Some r
    /\ cosineSimilarity r = 0 /\ angleDegrees r = 0.
Proof.
  destruct (@zero_vector_similarity acos_at_0_and_1
              [0; -0; 0] [1; nan; infinity]) as (r & E & C & A & _).
  - discriminate.
  - reflexivity.
  - left. repeat constructor.
  - exists r. auto.
Defined.

End SymmetryWitness.

(** ** The range of the similarity, on an example *)

Section RangeWitness.
Import JS MathUtils.
Local Open Scope float_scope.

Lemma similarity_in_range_or_nan_witness :
  exists r : VectorResult,
    @calculateCosineSimilarity acos_at_0_and_1 [1; 0] [2; 0] = Some r
    /\ (isNaN (cosineSimilarity r) = true
        \/ ((-1 <=? cosineSimilarity r) = true
            /\ (cosineSimilarity r <=? 1) = true)).
Proof.
  eexists. split; [reflexivity|].
  apply (@similarity_in_range_or_nan acos_at_0_and_1 [1; 0] [2; 0]).
  reflexivity.
Defined.

End RangeWitness.

(** ** The magnitudes *)

Section Magnitudes.
Import JS JSString MathUtils.
Local Open Scope float_scope.
Context `{MathLib}.

Lemma round_nonneg (m e : Z) (l : location) :
  (0 <= m)%Z -> SFnonneg (binary_round_aux prec emax false m e l) = true.
Proof.
  intros Hm.
  destruct (binary_round_aux_cases false m e l Hm)
    as [E | [E | (m' & e' & E)]]; rewrite E; reflexivity.
Qed.

Lemma square_nonneg (x : float) :
  is_nan x = false -> SFnonneg (Prim2SF (x * x)) = true.
Proof.
  rewrite is_nan_false, mul_spec. unfold SF64mul.
  destruct (Prim2SF x) as [s|s| |s m e]; cbn [SFmul]; try congruence;
    intros _; try (destruct s; reflexivity).
  rewrite xorb_nilpotent. apply round_nonneg. lia.
Qed.

Lemma add_nonneg (a b : float) :
  SFnonneg (Prim2SF a) = true -> SFnonneg (Prim2SF b) = true ->
  SFnonneg (Prim2SF (a + b)) = true.
Proof.
  rewrite add_spec. unfold SF64add.
  destruct (Prim2SF a) as [[]|[]| |[] m e]; try discriminate;
    destruct (Prim2SF b) as [[]|[]| |[] m' e']; try discriminate;
    intros _ _; try reflexivity.
  cbn [SFadd cond_Zopp]. cbn [Z.add binary_normalize].
  destruct (binary_round_cases false
              (fst (shl_align m e (Z.min e e'))
               + fst (shl_align m' e' (Z.min e e'))) (Z.min e e'))
    as [E | [E | (m2 & e2 & E)]]; rewrite E; reflexivity.
Qed.

Lemma sqrt_finite_nonneg (m : positive) (e : Z) :
  SFnonneg (SFsqrt prec emax (S754_finite false m e)) = true.
Proof.
  cbn [SFsqrt]. unfold SFsqrt_core_binary.
  set (e' := Z.min _ _).
  set (m' := match (e - 2 * e')%Z with
             | Z.pos _ => Z.shiftl (Z.pos m) (e - 2 * e')
             | 0%Z => Z.pos m
             | Z.neg _ => 0%Z
             end).
  assert (Hm' : (0 <= m')%Z).
  { unfold m'. destruct (e - 2 * e')%Z; try lia.
    apply Z.shiftl_nonneg. lia. }
  pose proof (Z.sqrtrem_spec m' Hm') as Hs.
  destruct (Z.sqrtrem m') as [q r].
  apply round_nonneg. lia.
Qed.

(** A square root is never below zero. *)
Lemma sqrt_not_negative (x : float) : (sqrt x <? 0) = false.
Proof.
  rewrite FloatAxioms.ltb_spec, sqrt_spec. unfold SF64sqrt, SFltb.
  destruct (Prim2SF x) as [s|[]| |[] m e]; try reflexivity.
  pose proof (sqrt_finite_nonneg m e) as N.
  destruct (SFsqrt prec emax (S754_finite false m e)) as [[]|[]| |[] m' e'];
    try discriminate; reflexivity.
Qed.

Lemma sqrt_nonneg (x : float) :
  SFnonneg (Prim2SF x) = true -> SFnonneg (Prim2SF (sqrt x)) = true.
Proof.
  rewrite sqrt_spec. unfold SF64sqrt.
  destruct (Prim2SF x) as [[]|[]| |[] m e]; try discriminate; intros _;
    try reflexivity.
  apply sqrt_finite_nonneg.
Qed.

Lemma sum_of_squares_nonneg (a : list number) :
  all_numbers a -> SFnonneg (Prim2SF (dot a a)) = true.
Proof.
  unfold dot, sum. intros Ha.
  assert (G : forall acc, SFnonneg (Prim2SF acc) = true ->
              SFnonneg (Prim2SF (fold_left PrimFloat.add (products a a) acc))
              = true).
  { induction Ha as [|c a Hc _ IH]; intros acc Hacc; [exact Hacc|].
    cbn [products fold_left]. apply IH.
    apply add_nonneg; [exact Hacc | apply square_nonneg; exact Hc]. }
  apply G. reflexivity.
Qed.

Lemma nonneg_number (x : float) :
  SFnonneg (Prim2SF x) = true -> isNaN x = false /\ (0 <=? x) = true.
Proof.
  unfold isNaN. rewrite is_nan_false, FloatAxioms.leb_spec.
  destruct (Prim2SF x) as [[]|[]| |[] m e]; try discriminate;
    intros _; split; (discriminate || reflexivity).
Qed.

(** The magnitudes in a result are never negative; they are the square roots
    of the sums of squares, and when no component of a vector is NaN its
    magnitude is a number that is at least 0 (possibly Infinity), also where
    the dot product is NaN. *)
Theorem magnitudes_are_numbers
  (vecA vecB : list number) (r : VectorResult) :
  calculateCosineSimilarity vecA vecB = Some r ->
  magnitudeA r = magnitude vecA
  /\ magnitudeB r = magnitude vecB
  /\ (magnitudeA r <? 0) = false
  /\ (magnitudeB r <? 0) = false
  /\ (all_numbers vecA ->
      isNaN (magnitudeA r) = false /\ (0 <=? magnitudeA r) = true)
  /\ (all_numbers vecB ->
      isNaN (magnitudeB r) = false /\ (0 <=? magnitudeB r) = true).
Proof.
  unfold calculateCosineSimilarity.
  destruct (rejects vecA vecB) eqn:R; [discriminate|].
  apply rejects_false in R as [_ Hl]. rewrite (for_loop_whole vecA vecB Hl).
  intros [= <-]. unfold result_of_sums. cbn [accDot accSqA accSqB].
  fold (magnitude vecA). fold (magnitude vecB).
  assert (MA : forall a, all_numbers a ->
               isNaN (magnitude a) = false /\ (0 <=? magnitude a) = true).
  { intros a Ha. apply nonneg_number. unfold magnitude, Math_sqrt.
    apply sqrt_nonneg. apply sum_of_squares_nonneg. exact Ha. }
  destruct (strict_eq (magnitude vecA) 0 || strict_eq (magnitude vecB) 0);
    cbn [magnitudeA magnitudeB];
    (split; [reflexivity|]); (split; [reflexivity|]);
    (split; [apply sqrt_not_negative|]); (split; [apply sqrt_not_negative|]);
    split; apply MA.
Qed.

End Magnitudes.

Section MagnitudesWitness.
Import JS JSString MathUtils.
Local Open Scope float_scope.

Lemma magnitudes_are_numbers_witness :
  exists r,
    @calculateCosineSimilarity acos_at_0_and_1
      [ten_to_200; - ten_to_200] [ten_to_200; ten_to_200] = Some r
    /\ isNaN (dotProduct r) = true
    /\ isNaN (magnitudeA r) = false.
Proof.
  eexists. split; [reflexivity|]. split; [reflexivity|].
  refine (proj1 (proj1 (proj2 (proj2 (proj2 (proj2
            (@magnitudes_are_numbers acos_at_0_and_1
               [ten_to_200; - ten_to_200] [ten_to_200; ten_to_200] _
               eq_refl))))) _)).
  repeat constructor.
Defined.

End MagnitudesWitness.

(** ** The parser across separators and after input normalisation *)

Section ParserComposition.
Import JS JSString MathUtils Tokens App.
Local Open Scope float_scope.

Lemma parse_separator (s1 s2 : jsstring) (c : code_unit) :
  is_separator c = true ->
  parseVectorString (s1 ++ c :: s2)
  = parseVectorString s1 ++ parseVectorString s2.
Proof.
  intros Hc. rewrite !parseVectorString_tokens, (tokens_separator s1 s2 c Hc).
  rewrite map_app, filter_app. reflexivity.
Qed.

Lemma parse_leading_run (run s : jsstring) :
  forallb is_separator run = true ->
  parseVectorString (run ++ s) = parseVectorString s.
Proof.
  induction run as [|c run IH]; intros Hr; [reflexivity|].
  cbn [forallb] in Hr. apply andb_true_iff in Hr as [Hc Hr].
  change ((c :: run) ++ s) with ([] ++ c :: (run ++ s)).
  rewrite (parse_separator [] (run ++ s) c Hc). apply IH. exact Hr.
Qed.

(** Two inputs joined by a run of white space and commas parse to the two
    vectors one after the other, whatever the run is made of; separators at
    the start or at the end of an input add nothing. *)
Theorem parse_joined (s1 run s2 : jsstring) :
  run <> [] ->
  forallb is_separator run = true ->
  parseVectorString (s1 ++ run ++ s2)
  = parseVectorString s1 ++ parseVectorString s2.
Proof.
  intros Hne Hr. destruct run as [|c run]; [contradiction|].
  cbn [forallb] in Hr. apply andb_true_iff in Hr as [Hc Hr].
  change (s1 ++ (c :: run) ++ s2) with (s1 ++ c :: (run ++ s2)).
  rewrite (parse_separator s1 (run ++ s2) c Hc), (parse_leading_run run s2 Hr).
  reflexivity.
Qed.

Lemma parse_joined_witness :
  parseVectorString (lit "1.5 -2" ++ lit " ,  , " ++ lit "3e2")
  = parseVectorString (lit "1.5 -2") ++ parseVectorString (lit "3e2").
Proof. apply parse_joined; [discriminate | reflexivity]. Defined.

(** *** [handleVectorInputChange] *)

Lemma comma_space_tokens (tok : jsstring) (s : jsstring) :
  tokens_from tok (comma_space ++ s) = emit tok (tokens_from [] s).
Proof. reflexivity. Qed.

Lemma whitespace_separator (c : code_unit) :
  is_whitespace c = true -> is_separator c = true.
Proof. unfold is_separator. intros ->. reflexivity. Qed.

(** Dropping white space that a token does not reach into, and replacing a
    match, leave the tokens as they are. *)
Lemma insert_commas_tokens (s : jsstring) :
  forall (skip : nat) (tok : jsstring),
    skip = O \/ (tok = [] /\ (skip <= whitespace_run s)%nat) ->
    tokens_from tok (insert_commas skip s) = tokens_from tok s.
Proof.
  induction s as [|c s IH]; intros skip tok Hs.
  - cbn. destruct Hs as [-> | [-> Hk]]; [reflexivity|].
    cbn in Hk. assert (skip = O) by lia. subst. reflexivity.
  - destruct skip as [|k].
    + cbn [insert_commas].
      destruct (is_digit c && (0 <? whitespace_run s)%nat && digit_follows s)
        eqn:M.
      * apply andb_true_iff in M as [M _].
        apply andb_true_iff in M as [Hd Hw].
        apply Nat.ltb_lt in Hw.
        assert (Hc : is_separator c = false).
        { unfold is_separator. rewrite (digit_not_whitespace c Hd).
          unfold is_digit in Hd. apply andb_true_iff in Hd as [H1 H2].
          apply N.leb_le in H1. apply N.eqb_neq. lia. }
        cbn [tokens_from]. rewrite Hc.
        rewrite comma_space_tokens.
        rewrite (IH (whitespace_run s) []) by (right; split; [reflexivity | lia]).
        destruct s as [|w s]; [cbn in Hw; lia|].
        cbn [whitespace_run] in Hw.
        destruct (is_whitespace w) eqn:Ew; [|lia].
        cbn [tokens_from]. rewrite (whitespace_separator w Ew).
        reflexivity.
      * cbn [tokens_from]. destruct (is_separator c).
        -- rewrite (IH O []) by (left; reflexivity). reflexivity.
        -- apply IH. left. reflexivity.
    + destruct Hs as [Hs | [-> Hk]]; [discriminate|].
      cbn [insert_commas]. cbn [whitespace_run] in Hk.
      destruct (is_whitespace c) eqn:Ew; [|lia].
      cbn [tokens_from]. rewrite (whitespace_separator c Ew). cbn [emit].
      apply IH. destruct k; [left; reflexivity | right; split; [reflexivity | lia]].
Qed.

Lemma replace_trailing_space_tokens (value : jsstring) :
  tokens (replace_trailing_space value) = tokens value.
Proof.
  unfold replace_trailing_space.
  destruct (rev value) as [|sp [|d r]] eqn:E; try reflexivity.
  destruct ((sp =? 0x20)%N && is_digit d) eqn:C; [|reflexivity].
  apply andb_true_iff in C as [Hsp _]. apply N.eqb_eq in Hsp. subst sp.
  assert (Ev : exists front, value = front ++ [0x20%N]).
  { exists (rev (d :: r)). rewrite <- (rev_involutive value), E. reflexivity. }
  destruct Ev as [front ->]. rewrite removelast_last.
  unfold comma_space.
  transitivity (tokens front).
  - rewrite <- (app_nil_r (tokens front)).
    exact (tokens_separator front [0x20%N] 0x2C%N eq_refl).
  - rewrite <- (app_nil_r (tokens front)). symmetry.
    exact (tokens_separator front [] 0x20%N eq_refl).
Qed.

Lemma handleVectorInputChange_tokens (value : jsstring) :
  tokens (handleVectorInputChange value) = tokens value.
Proof.
  unfold handleVectorInputChange.
  rewrite replace_trailing_space_tokens. unfold tokens.
  apply (insert_commas_tokens value O []). left. reflexivity.
Qed.

(** The normalisation of the input field inserts commas only where there
    were separators: the string it stores has the tokens of the typed string
    and parses to the same vector. *)
Theorem normalised_input_parses_alike (value : jsstring) :
  tokens (handleVectorInputChange value) = tokens value
  /\ parseVectorString (handleVectorInputChange value)
     = parseVectorString value.
Proof.
  split; [apply handleVectorInputChange_tokens|].
  rewrite !parseVectorString_tokens, handleVectorInputChange_tokens.
  reflexivity.
Qed.

End ParserComposition.

Section Renormalising.
Import JS JSString MathUtils Tokens App.
Local Open Scope float_scope.

Lemma whitespace_not_digit (c : code_unit) :
  is_whitespace c = true -> is_digit c = false.
Proof.
  intros Hw. destruct (is_digit c) eqn:Hd; [|reflexivity].
  rewrite (digit_not_whitespace c Hd) in Hw. discriminate.
Qed.

(** The replacement copies the white space that a string starts with when
    no match is being dropped, so it keeps the run and what follows it. *)
Lemma insert_commas_run (s : jsstring) :
  whitespace_run (insert_commas O s) = whitespace_run s
  /\ digit_follows (insert_commas O s) = digit_follows s.
Proof.
  unfold digit_follows. induction s as [|c s [IH1 IH2]]; [split; reflexivity|].
  destruct (is_whitespace c) eqn:Ew.
  - cbn [insert_commas]. rewrite (whitespace_not_digit c Ew). cbn [andb].
    rewrite IH1 in IH2.
    cbn [whitespace_run]. rewrite Ew, IH1. cbn [nth_error].
    split; [reflexivity | exact IH2].
  - cbn [insert_commas].
    destruct (is_digit c && (0 <? whitespace_run s)%nat && digit_follows s);
      cbn [app comma_space whitespace_run]; rewrite Ew; split; reflexivity.
Qed.

(** After the replacement no match is left. *)
Lemma insert_commas_again (s : jsstring) :
  forall skip : nat,
    insert_commas O (insert_commas skip s) = insert_commas skip s.
Proof.
  induction s as [|c s IH]; intros skip; [destruct skip; reflexivity|].
  destruct skip as [|k]; [|cbn [insert_commas]; apply IH].
  cbn [insert_commas].
  destruct (is_digit c && (0 <? whitespace_run s)%nat && digit_follows s)
    eqn:M.
  - cbn [app comma_space insert_commas whitespace_run].
    change (is_whitespace 0x2C%N) with false.
    change (is_digit 0x2C%N) with false. change (is_digit 0x20%N) with false.
    rewrite andb_false_r. cbn [andb]. rewrite IH. reflexivity.
  - cbn [insert_commas].
    destruct (insert_commas_run s) as [-> ->]. rewrite M, IH. reflexivity.
Qed.

(** White space before a digit: the run and the lookahead do not depend on
    what comes after the digit. *)
Lemma run_before_digit (front : jsstring) (d : code_unit) (r : jsstring) :
  is_digit d = true ->
  whitespace_run (front ++ d :: r) = whitespace_run (front ++ [d])
  /\ digit_follows (front ++ d :: r) = digit_follows (front ++ [d])
  /\ (whitespace_run (front ++ d :: r) <= length front)%nat.
Proof.
  intros Hd. unfold digit_follows.
  induction front as [|c front (IH1 & IH2 & IH3)].
  - cbn [app whitespace_run]. rewrite (digit_not_whitespace d Hd).
    cbn. repeat split. lia.
  - cbn [app whitespace_run length]. destruct (is_whitespace c).
    + cbn [nth_error]. rewrite IH1. rewrite IH1 in IH2.
      repeat split; [exact IH2 | rewrite <- IH1; lia].
    + cbn [nth_error]. repeat split. lia.
Qed.

(** What the replacement makes of the text before a digit does not depend
    on what comes after the digit. *)
Lemma insert_commas_before_digit (front : jsstring) (d : code_unit) :
  is_digit d = true ->
  forall skip : nat,
    (skip <= length front)%nat ->
    exists out : jsstring,
      forall r : jsstring,
        insert_commas skip (front ++ d :: r)
        = out ++ insert_commas O (d :: r).
Proof.
  intros Hd. induction front as [|c front IH]; intros skip Hs.
  - cbn in Hs. assert (skip = O) by lia. subst. exists []. reflexivity.
  - destruct skip as [|k].
    + destruct (is_digit c && (0 <? whitespace_run (front ++ [d]))%nat
                && digit_follows (front ++ [d])) eqn:M.
      * destruct (IH (whitespace_run (front ++ [d]))) as [out Hout].
        { destruct (run_before_digit front d [] Hd) as (_ & _ & Hl). exact Hl. }
        exists (c :: comma_space ++ out). intros r.
        cbn [app insert_commas].
        destruct (run_before_digit front d r Hd) as (-> & -> & _).
        rewrite M, Hout. reflexivity.
      * destruct (IH O) as [out Hout]; [lia|].
        exists (c :: out). intros r.
        cbn [app insert_commas].
        destruct (run_before_digit front d r Hd) as (-> & -> & _).
        rewrite M, Hout. reflexivity.
    + destruct (IH k) as [out Hout]; [cbn in Hs; lia|].
      exists out. intros r. cbn [app insert_commas]. apply Hout.
Qed.

Lemma replace_trailing_space_cases (value : jsstring) :
  replace_trailing_space value = value
  \/ exists (front : jsstring) (d : code_unit),
       is_digit d = true
       /\ value = front ++ [d; 0x20%N]
       /\ replace_trailing_space value = front ++ [d; 0x2C%N; 0x20%N].
Proof.
  unfold replace_trailing_space.
  destruct (rev value) as [|sp [|d r]] eqn:E; auto.
  destruct ((sp =? 0x20)%N && is_digit d) eqn:C; auto.
  apply andb_true_iff in C as [Hsp Hd]. apply N.eqb_eq in Hsp. subst sp.
  right. exists (rev r), d.
  assert (Ev : value = rev r ++ [d; 0x20%N]).
  { rewrite <- (rev_involutive value), E. cbn [rev].
    rewrite <- app_assoc. reflexivity. }
  split; [exact Hd|]. split; [exact Ev|].
  rewrite Ev at 1.
  change (rev r ++ [d; 0x20%N]) with (rev r ++ [d] ++ [0x20%N]).
  rewrite app_assoc, removelast_last, <- app_assoc. reflexivity.
Qed.

Lemma replace_trailing_space_again (value : jsstring) :
  replace_trailing_space (replace_trailing_space value)
  = replace_trailing_space value.
Proof.
  destruct (replace_trailing_space_cases value)
    as [E | (front & d & Hd & Ev & E)]; rewrite E; [exact E|].
  unfold replace_trailing_space.
  change (front ++ [d; 0x2C%N; 0x20%N])
    with (front ++ [d] ++ [0x2C%N; 0x20%N]).
  rewrite !rev_app_distr. reflexivity.
Qed.

(** The input field hands its whole text to the handler at every keystroke:
    text that the handler has normalised is left as it is by the next
    call. *)
Theorem normalising_twice_changes_nothing (value : jsstring) :
  handleVectorInputChange (handleVectorInputChange value)
  = handleVectorInputChange value.
Proof.
  unfold handleVectorInputChange.
  set (x := insert_commas O value).
  assert (Hx : insert_commas O x = x) by apply insert_commas_again.
  destruct (replace_trailing_space_cases x)
    as [E | (front & d & Hd & Ev & E)].
  - rewrite E, Hx. exact E.
  - assert (St : insert_commas O (replace_trailing_space x)
                 = replace_trailing_space x).
    { rewrite E.
      destruct (insert_commas_before_digit front d Hd O (Nat.le_0_l _))
        as [out Hout].
      assert (Eo : out = front).
      { pose proof (Hout [0x20%N]) as H1.
        change (front ++ [d; 0x20%N]) with (front ++ d :: [0x20%N]) in Ev.
        rewrite <- Ev, Hx, Ev in H1.
        assert (E1 : insert_commas O [d; 0x20%N] = [d; 0x20%N]).
        { cbn [insert_commas whitespace_run digit_follows].
          change (is_whitespace 0x20%N) with true.
          cbn [nth_error whitespace_run].
          rewrite !andb_false_r. change (is_digit 0x20%N) with false.
          reflexivity. }
        rewrite E1 in H1. apply app_inv_tail in H1. symmetry. exact H1. }
      subst out.
      change (front ++ [d; 0x2C%N; 0x20%N])
        with (front ++ d :: [0x2C%N; 0x20%N]).
      rewrite Hout. f_equal.
      cbn [insert_commas whitespace_run].
      change (is_whitespace 0x2C%N) with false.
      change (is_digit 0x2C%N) with false. change (is_digit 0x20%N) with false.
      rewrite !andb_false_r. reflexivity. }
    rewrite St. apply replace_trailing_space_again.
Qed.

End Renormalising.

(** ** The calculate handler and the badge *)

Section Handler.
Import JS JSString MathUtils App.
Local Open Scope float_scope.
Context `{MathLib}.

(** [handleCalculate] decides on the vectors of the render that made it
    and writes to the current state.  Afterwards either a result or an error
    message is stored, never both and never neither: the handler rejects
    what the routine would reject, so the routine's [null] is never stored
    without a message.  A difference in length is reported first, also when
    one vector is empty; the message for empty vectors needs both to be
    empty; the vectors of the state are left as they are, and a new result
    clears the explanation. *)
Theorem handleCalculate_outcome (render st : State) :
  (result (handleCalculate render st) = None
   <-> error (handleCalculate render st) <> None)
  /\ (error (handleCalculate render st) = None
      <-> vecA render <> [] /\ length (vecA render) = length (vecB render))
  /\ (length (vecA render) <> length (vecB render) ->
      error (handleCalculate render st)
      = Some (mismatch_message (length (vecA render))
                (length (vecB render))))
  /\ (vecA render = [] -> vecB render = [] ->
      error (handleCalculate render st) = Some empty_message)
  /\ (error (handleCalculate render st) = None ->
      result (handleCalculate render st)
      = calculateCosineSimilarity (vecA render) (vecB render)
      /\ explanation (handleCalculate render st) = None)
  /\ (error (handleCalculate render st) <> None ->
      explanation (handleCalculate render st) = explanation st)
  /\ vecA (handleCalculate render st) = vecA st
  /\ vecB (handleCalculate render st) = vecB st.
Proof.
  unfold handleCalculate.
  destruct (length (vecA render) =? length (vecB render))%nat eqn:El;
    cbn [negb].
  - apply Nat.eqb_eq in El.
    destruct (length (vecA render) =? 0)%nat eqn:E0.
    + apply Nat.eqb_eq in E0.
      assert (Ea : vecA render = [])
        by (destruct (vecA render); [reflexivity | discriminate]).
      cbn [result error explanation vecA vecB].
      repeat split; intros; try congruence; try discriminate;
        try (exfalso; intuition congruence).
    + apply Nat.eqb_neq in E0.
      assert (Ea : vecA render <> [])
        by (intros E; rewrite E in E0; apply E0; reflexivity).
      cbn [result error explanation vecA vecB].
      assert (Hr : exists r,
                 calculateCosineSimilarity (vecA render) (vecB render)
                 = Some r).
      { rewrite (calculate_accepted _ _ Ea El). eauto. }
      destruct Hr as [r Hr]. rewrite Hr.
      repeat split; intros; try congruence; try discriminate;
        try (exfalso; intuition congruence).
  - apply Nat.eqb_neq in El.
    cbn [result error explanation vecA vecB].
    repeat split; intros; try congruence; try discriminate;
      try (exfalso; intuition congruence).
Qed.

(** The calculation that the mount effect starts is the one of the first
    render, whose vectors are empty: whatever the state holds when the timer
    fires, it stores the message for empty vectors and no result, and
    leaves the rest.  So the mounted application shows the vectors [2, 1]
    and [1, 3] with that message, although a press of the button in this
    state stores a result. *)
Theorem mount_reports_empty_vectors (st : State) :
  error (handleCalculate initial st) = Some empty_message
  /\ result (handleCalculate initial st) = None
  /\ explanation (handleCalculate initial st) = explanation st
  /\ vecA (handleCalculate initial st) = vecA st
  /\ vecB (handleCalculate initial st) = vecB st
  /\ mounted
     = {| vecA := [2; 1]; vecB := [1; 3]; result := None;
          error := Some empty_message; explanation := None |}
  /\ error (onClick mounted) = None
  /\ result (onClick mounted)
     = calculateCosineSimilarity [2; 1] [1; 3]
  /\ result (onClick mounted) <> None.
Proof.
  do 5 (split; [reflexivity|]).
  assert (Em : mounted
               = {| vecA := [2; 1]; vecB := [1; 3]; result := None;
                    error := Some empty_message; explanation := None |}).
  { unfold mounted, handleCalculate, parseInputs. cbn [vecA vecB initial].
    cbn [length Nat.eqb negb result error explanation].
    f_equal; vm_compute; reflexivity. }
  split; [exact Em|]. rewrite Em.
  unfold onClick, handleCalculate. cbn [vecA vecB length Nat.eqb negb].
  cbn [result error].
  split; [reflexivity|]. split; [reflexivity|].
  rewrite calculate_accepted by (first [discriminate | reflexivity]).
  discriminate.
Qed.

End Handler.

Section Badge.
Import JS JSString MathUtils App.
Local Open Scope float_scope.

Lemma gt_chain (c lo hi : number) :
  (lo <? hi) = true -> gt c hi = true -> gt c lo = true.
Proof. unfold gt. intros Hl Hc. apply (ltb_trans lo hi c Hl Hc). Qed.

Lemma gt_nan (c bound : number) : isNaN c = true -> gt c bound = false.
Proof.
  unfold gt, isNaN. intros Hc. apply is_nan_spec in Hc.
  rewrite FloatAxioms.ltb_spec, Hc. unfold SFltb.
  destruct (Prim2SF bound); reflexivity.
Qed.

(** The bar, the badge and the label of the score card agree: the badge has
    the colour of its label; a red bar goes with "Opposite / Unrelated" and
    with nothing else; a green bar goes with "Very Similar" or "Similar"
    only, and "Very Similar" always has a green bar.  A similarity that is
    NaN, as the routine returns when its sums overflow, is shown as
    "Opposite / Unrelated" on red. *)
Theorem badge_agrees (c : number) :
  (badgeLabel c = lit "Very Similar"
   <-> badgeColor c = lit "bg-green-100 text-green-700")
  /\ (badgeLabel c = lit "Similar"
      <-> badgeColor c = lit "bg-blue-100 text-blue-700")
  /\ (badgeLabel c = lit "Weakly Related"
      <-> badgeColor c = lit "bg-yellow-100 text-yellow-700")
  /\ (badgeLabel c = lit "Opposite / Unrelated"
      <-> barColor c = lit "bg-red-500")
  /\ (barColor c = lit "bg-green-500" ->
      badgeLabel c = lit "Very Similar" \/ badgeLabel c = lit "Similar")
  /\ (badgeLabel c = lit "Very Similar" -> barColor c = lit "bg-green-500")
  /\ (isNaN c = true ->
      badgeLabel c = lit "Opposite / Unrelated"
      /\ barColor c = lit "bg-red-500").
Proof.
  unfold badgeLabel, badgeColor, barColor.
  pose proof (gt_chain c seven_tenths nine_tenths eq_refl) as H97.
  pose proof (gt_chain c 0.5 seven_tenths eq_refl) as H75.
  pose proof (gt_chain c 0 0.5 eq_refl) as H50.
  pose proof (gt_nan c) as Hn.
  destruct (gt c nine_tenths) eqn:G9, (gt c seven_tenths) eqn:G7,
    (gt c 0.5) eqn:G5, (gt c 0) eqn:G0;
    try (specialize (H97 eq_refl); discriminate);
    try (specialize (H75 eq_refl); discriminate);
    try (specialize (H50 eq_refl); discriminate);
    repeat split; intros; try reflexivity; try discriminate; auto;
    try (rewrite Hn in G9 by assumption; discriminate);
    try (rewrite Hn in G7 by assumption; discriminate);
    try (rewrite Hn in G5 by assumption; discriminate);
    try (rewrite Hn in G0 by assumption; discriminate).
Qed.

End Badge.

(** ** From the typed text to the stored result *)

Section Pipeline.
Import JS JSString MathUtils Tokens App.
Local Open Scope float_scope.
Context `{MathLib}.

(** The parser returns one number per token with a numeric prefix. *)
Lemma parse_length (s : jsstring) :
  length (parseVectorString s) = numeric_tokens s.
Proof.
  rewrite parseVectorString_tokens. unfold numeric_tokens.
  induction (tokens s) as [|t l IH]; [reflexivity|].
  cbn [map filter]. rewrite parseFloat_nan, negb_involutive.
  destruct (has_numeric_prefix t); cbn [length]; rewrite IH; reflexivity.
Qed.

Lemma handleVectorInputChange_parse (value : jsstring) :
  parseVectorString (handleVectorInputChange value) = parseVectorString value.
Proof.
  rewrite !parseVectorString_tokens, handleVectorInputChange_tokens.
  reflexivity.
Qed.

(** Typing two strings and pressing the button stores a result exactly when
    the two strings hold the same number of tokens with a numeric prefix and
    at least one, and an error message otherwise; the commas that the input
    field inserts while typing change nothing of the outcome.  The button
    runs the handler of the render that shows the parsed vectors. *)
Theorem typed_inputs_outcome (inputA inputB : jsstring) (st : State) :
  (result (onClick (parseInputs inputA inputB st)) <> None
   <-> numeric_tokens inputA = numeric_tokens inputB
       /\ numeric_tokens inputA <> O)
  /\ (error (onClick (parseInputs inputA inputB st)) = None
      <-> numeric_tokens inputA = numeric_tokens inputB
          /\ numeric_tokens inputA <> O)
  /\ onClick
       (parseInputs (handleVectorInputChange inputA)
          (handleVectorInputChange inputB) st)
     = onClick (parseInputs inputA inputB st).
Proof.
  split; [|split].
  - unfold onClick, handleCalculate, parseInputs. cbn [vecA vecB].
    rewrite !parse_length.
    destruct (numeric_tokens inputA =? numeric_tokens inputB)%nat eqn:El;
      cbn [negb].
    + apply Nat.eqb_eq in El.
      destruct (numeric_tokens inputA =? 0)%nat eqn:E0; cbn [result].
      * apply Nat.eqb_eq in E0. split; [congruence | intros [_ N]; contradiction].
      * apply Nat.eqb_neq in E0.
        assert (Ha : parseVectorString inputA <> []).
        { intros E. apply E0. rewrite <- parse_length, E. reflexivity. }
        assert (Hl : length (parseVectorString inputA)
                     = length (parseVectorString inputB))
          by (rewrite !parse_length; exact El).
        rewrite (calculate_accepted _ _ Ha Hl).
        split; [auto | discriminate].
    + apply Nat.eqb_neq in El. cbn [result].
      split; [congruence | intros [E _]; contradiction].
  - unfold onClick, handleCalculate, parseInputs. cbn [vecA vecB].
    rewrite !parse_length.
    destruct (numeric_tokens inputA =? numeric_tokens inputB)%nat eqn:El;
      cbn [negb].
    + apply Nat.eqb_eq in El.
      destruct (numeric_tokens inputA =? 0)%nat eqn:E0; cbn [error].
      * apply Nat.eqb_eq in E0. split; [discriminate | intros [_ N]; contradiction].
      * apply Nat.eqb_neq in E0. split; auto.
    + apply Nat.eqb_neq in El. cbn [error].
      split; [discriminate | intros [E _]; contradiction].
  - unfold parseInputs. rewrite !handleVectorInputChange_parse. reflexivity.
Qed.

End Pipeline.

(** ** The 3D view *)

Section Dragging.
Import JS VectorChart.
Local Open Scope float_scope.

Lemma handleMouseUp_idle (st : State) :
  isDragging st = false -> handleMouseUp st = st.
Proof. destruct st as [r d l]. cbn. intros ->. reflexivity. Qed.

(** Outside a drag nothing moves the view: from a state that is not
    dragging, mouse moves, releases and leaves change neither the rotation
    nor the remembered mouse position. *)
Theorem idle_events_change_nothing (st : State) (evs : list Event) :
  isDragging st = false -> no_press evs -> fold_left step evs st = st.
Proof.
  intros Hd Hevs. induction Hevs as [|ev evs Hev _ IH]; [reflexivity|].
  cbn [fold_left].
  assert (E : step st ev = st).
  { destruct ev as [e|e| |]; cbn [step].
    - contradiction.
    - unfold handleMouseMove. rewrite Hd. reflexivity.
    - apply handleMouseUp_idle. exact Hd.
    - apply handleMouseUp_idle. exact Hd. }
  rewrite E. exact IH.
Qed.

Lemma idle_events_change_nothing_witness :
  fold_left step
    [MouseMove {| clientX := 300; clientY := 40 |}; MouseLeave;
     MouseMove {| clientX := 10; clientY := 500 |}; MouseUp]
    initial
  = initial.
Proof.
  apply idle_events_change_nothing; [reflexivity | repeat constructor].
Defined.

End Dragging.

Section Scale3D.
Import JS VectorChart.
Local Open Scope float_scope.

Lemma all_finite_app (l1 l2 : list number) :
  all_finite l1 -> all_finite l2 -> all_finite (l1 ++ l2).
Proof. unfold all_finite. intros. apply Forall_app. split; assumption. Qed.

Lemma all_finite_abs (l : list number) :
  all_finite l -> all_finite (map Math_abs l).
Proof.
  unfold all_finite. induction 1; constructor; [apply abs_finite|]; assumption.
Qed.

(** [Math.max] of a list of finite numbers that is not empty. *)
Lemma Math_max_nonempty (l : list number) :
  l <> [] -> all_finite l ->
  is_finite (Math_max l) = true
  /\ (forall k, In k l -> (k <=? Math_max l) = true).
Proof.
  intros Hne Hl. destruct l as [|n l]; [contradiction|].
  apply Math_max_finite. exact Hl.
Qed.

(** The product of two normal numbers that are at least 1. *)
Lemma product_normal (x c : float) :
  normal_ge_one (Prim2SF x) -> normal_ge_one (Prim2SF c) ->
  Prim2SF (x * c) = S754_infinity false \/ normal_ge_one (Prim2SF (x * c)).
Proof.
  intros (m & e & Ex & Dm & He) (mc & ec & Ec & Dc & Hec).
  rewrite mul_spec, Ex, Ec. unfold SF64mul. cbn [SFmul xorb].
  set (p := Z.pos (m * mc)).
  assert (Hp : (0 < p)%Z) by (unfold p; lia).
  assert (Dp : (105 <= Zdigits2 p <= 106)%Z).
  { rewrite Zdigits2_log2 by exact Hp.
    assert (Lm : Z.log2 (Z.pos m) = 52%Z)
      by (pose proof (digits2_log2 m); lia).
    assert (Lc : Z.log2 (Z.pos mc) = 52%Z)
      by (pose proof (digits2_log2 mc); lia).
    unfold p. rewrite Pos2Z.inj_mul.
    pose proof (Z.log2_mul_below (Z.pos m) (Z.pos mc)) as Hb.
    pose proof (Z.log2_mul_above (Z.pos m) (Z.pos mc)) as Ha.
    lia. }
  destruct (binary_round_aux_normal false p (e + ec) loc_Exact Hp)
    as [(m' & e' & -> & Dm' & He' & Hmax) | [-> _]].
  - change prec with 53%Z. lia.
  - unfold SpecFloat.emin. change prec with 53%Z. change emax with 1024%Z. lia.
  - right. exists m', e'. change prec with 53%Z in *. change emax with 1024%Z in *.
    repeat split; lia.
  - left. reflexivity.
Qed.

(** The quotient of a normal number of moderate size by a normal number
    that is at least 1 is finite and positive. *)
Lemma quotient_finite (n y : float) (mn : positive) (en : Z) :
  Prim2SF n = S754_finite false mn en ->
  Z.pos (digits2_pos mn) = 53%Z -> (-50 <= en <= 900)%Z ->
  normal_ge_one (Prim2SF y) ->
  exists (m : positive) (e : Z), Prim2SF (n / y) = S754_finite false m e.
Proof.
  intros En Dn Hen (my & ey & Ey & Dm & He).
  rewrite div_spec, En, Ey.
  unfold SF64div. cbn [SFdiv xorb]. unfold SFdiv_core_binary.
  cbn [Zdigits2]. rewrite Dn, Dm.
  replace (Z.min (fexp prec emax (53 + en - (53 + ey))) (en - ey))
    with (en - ey - 53)%Z
    by (unfold fexp, SpecFloat.emin; change prec with 53%Z;
        change emax with 1024%Z; lia).
  replace (en - ey - (en - ey - 53))%Z with 53%Z by lia.
  set (K := Z.shiftl (Z.pos mn) 53).
  assert (EK : K = (Z.pos mn * 9007199254740992)%Z)
    by (unfold K; rewrite Z.shiftl_mul_pow2 by lia; reflexivity).
  pose proof (Zdigits2_bounds (Z.pos my) ltac:(lia)) as Bm.
  cbn [Zdigits2] in Bm. rewrite Dm in Bm.
  change (2 ^ (53 - 1))%Z with 4503599627370496%Z in Bm.
  change (2 ^ 53)%Z with 9007199254740992%Z in Bm.
  pose proof (Zdigits2_bounds (Z.pos mn) ltac:(lia)) as Bn.
  cbn [Zdigits2] in Bn. rewrite Dn in Bn.
  change (2 ^ (53 - 1))%Z with 4503599627370496%Z in Bn.
  change (2 ^ 53)%Z with 9007199254740992%Z in Bn.
  assert (Eq : Z.div_eucl K (Z.pos my) = (K / Z.pos my, K mod Z.pos my)%Z).
  { unfold Z.div, Z.modulo. destruct (Z.div_eucl K (Z.pos my)). reflexivity. }
  rewrite Eq. set (q := (K / Z.pos my)%Z).
  assert (Bq : (4503599627370496 <= q < 18014398509481984)%Z).
  { unfold q. split.
    - apply Z.div_le_lower_bound; [lia|]. rewrite EK. nia.
    - apply Z.div_lt_upper_bound; [lia|]. rewrite EK. nia. }
  assert (Hq : (0 < q)%Z) by lia.
  assert (Dq : (53 <= Zdigits2 q <= 54)%Z).
  { destruct (Z_lt_le_dec q 9007199254740992).
    - rewrite (Zdigits2_unique q 53); [lia | lia |].
      change (2 ^ (53 - 1))%Z with 4503599627370496%Z.
      change (2 ^ 53)%Z with 9007199254740992%Z. lia.
    - rewrite (Zdigits2_unique q 54); [lia | lia |].
      change (2 ^ (54 - 1))%Z with 9007199254740992%Z.
      change (2 ^ 54)%Z with 18014398509481984%Z. lia. }
  destruct (binary_round_aux_normal false q (en - ey - 53)
              (new_location (Z.pos my) (K mod Z.pos my)) Hq)
    as [(m' & e' & -> & _) | [_ Hov]].
  - change prec with 53%Z. lia.
  - unfold SpecFloat.emin. change prec with 53%Z. change emax with 1024%Z. lia.
  - eauto.
  - change emax with 1024%Z in Hov. lia.
Qed.

Lemma scale3D_cases (vecA vecB : list number) :
  all_finite (vecA ++ vecB) ->
  (5 <=? Math_max (map Math_abs vecA ++ map Math_abs vecB ++ [5])) = true
  /\ ((Prim2SF (VectorChart3D.maxVal vecA vecB) = S754_infinity false
       /\ Prim2SF (VectorChart3D.scale vecA vecB) = S754_zero false)
      \/ (normal_ge_one (Prim2SF (VectorChart3D.maxVal vecA vecB))
          /\ exists m e,
               Prim2SF (VectorChart3D.scale vecA vecB) = S754_finite false m e)).
Proof.
  intros Hf. unfold VectorChart3D.scale, VectorChart3D.maxVal.
  change (VectorChart3D.size / 2 - 40) with 120.
  set (M := Math_max (map Math_abs vecA ++ map Math_abs vecB ++ [5])).
  assert (HM : is_finite M = true /\ (5 <=? M) = true).
  { destruct (Math_max_nonempty
                (map Math_abs vecA ++ map Math_abs vecB ++ [5])) as [F G].
    - intros E. apply app_eq_nil in E as [_ E].
      apply app_eq_nil in E as [_ E]. discriminate.
    - unfold all_finite in Hf. apply Forall_app in Hf as [Ha Hb].
      apply all_finite_app; [apply all_finite_abs; exact Ha|].
      apply all_finite_app; [apply all_finite_abs; exact Hb|].
      repeat constructor.
    - split; [exact F|]. apply G. rewrite !in_app_iff. cbn. tauto. }
  destruct HM as [F G]. split; [exact G|].
  assert (G1 : (1 <=? M) = true) by (apply (leb_trans 1 5 M); [reflexivity | exact G]).
  assert (N15 : normal_ge_one (Prim2SF 1.5)).
  { exists 6755399441055744%positive, (-52)%Z. repeat split; lia. }
  destruct (product_normal M 1.5 (ge_one_normal M G1 F) N15) as [Hinf | Hn].
  - left. split; [exact Hinf|]. rewrite div_spec, Hinf. reflexivity.
  - right. split; [exact Hn|].
    apply (quotient_finite 120 _ 8444249301319680 (-46)); try reflexivity;
      [lia | exact Hn].
Qed.

End Scale3D.

Section Projection.
Import JS VectorChart.
Local Open Scope float_scope.

(** The scale of the 3D view, whose maximum has the floor 5 and the padding
    1.5: for finite components the maximum is at least 5, the scale is
    finite and not negative, and it is positive exactly when the padded
    maximum is finite. *)
Theorem scale3D_finite_nonnegative (vecA vecB : list number) :
  all_finite (vecA ++ vecB) ->
  (5 <=? Math_max (map Math_abs vecA ++ map Math_abs vecB ++ [5])) = true
  /\ is_finite (VectorChart3D.scale vecA vecB) = true
  /\ (0 <=? VectorChart3D.scale vecA vecB) = true
  /\ ((0 <? VectorChart3D.scale vecA vecB) = true
      <-> is_finite (VectorChart3D.maxVal vecA vecB) = true).
Proof.
  intros Hf.
  destruct (scale3D_cases vecA vecB Hf)
    as [G [[Hm Hs] | [(m & e & Hm & _) (ms & es & Hs)]]];
    (split; [exact G|]).
  - repeat split.
    + rewrite is_finite_spec, Hs. reflexivity.
    + rewrite FloatAxioms.leb_spec, Hs. reflexivity.
    + rewrite FloatAxioms.ltb_spec, Hs. discriminate.
    + rewrite is_finite_spec, Hm. discriminate.
  - repeat split.
    + rewrite is_finite_spec, Hs. reflexivity.
    + rewrite FloatAxioms.leb_spec, Hs. reflexivity.
    + rewrite is_finite_spec, Hm. reflexivity.
    + rewrite FloatAxioms.ltb_spec, Hs. reflexivity.
Qed.

Lemma scale3D_finite_nonnegative_witness :
  is_finite (VectorChart3D.scale [1; -7; 2] [0; 3; 4]) = true
  /\ (0 <=? VectorChart3D.scale [1; -7; 2] [0; 3; 4]) = true.
Proof.
  destruct (scale3D_finite_nonnegative [1; -7; 2] [0; 3; 4])
    as (_ & F & N & _).
  - repeat constructor.
  - split; assumption.
Defined.

Lemma is_finite_cases (x : float) :
  is_finite x = true ->
  (exists s, Prim2SF x = S754_zero s)
  \/ (exists s m e, Prim2SF x = S754_finite s m e).
Proof.
  rewrite is_finite_spec. destruct (Prim2SF x); cbn; try discriminate; eauto.
Qed.

Lemma zero_mul (a b : float) :
  is_zero a = true -> is_finite b = true -> is_zero (a * b) = true.
Proof.
  intros Ha Hb. apply is_zero_spec in Ha as [s Hs].
  apply is_zero_spec. rewrite mul_spec, Hs.
  destruct (is_finite_cases b Hb) as [[s' ->] | (s' & m & e & ->)];
    cbn; eauto.
Qed.

Lemma zero_sub (a b : float) :
  is_zero a = true -> is_zero b = true -> is_zero (a - b) = true.
Proof.
  intros Ha Hb. apply is_zero_spec in Ha as [s Hs].
  apply is_zero_spec in Hb as [s' Hs'].
  apply is_zero_spec. rewrite sub_spec, Hs, Hs'.
  destruct s, s'; cbn; eauto.
Qed.

Lemma zero_add (a b : float) :
  is_zero a = true -> is_zero b = true -> is_zero (a + b) = true.
Proof.
  intros Ha Hb. apply is_zero_spec in Ha as [s Hs].
  apply is_zero_spec in Hb as [s' Hs'].
  apply is_zero_spec. rewrite add_spec, Hs, Hs'.
  destruct s, s'; cbn; eauto.
Qed.

Lemma center_add_zero (a : float) :
  is_zero a = true -> VectorChart3D.center + a = VectorChart3D.center.
Proof.
  intros Ha. apply is_zero_spec in Ha as [s Hs].
  apply Prim2SF_inj. rewrite add_spec, Hs. reflexivity.
Qed.

Lemma center_sub_zero (a : float) :
  is_zero a = true -> VectorChart3D.center - a = VectorChart3D.center.
Proof.
  intros Ha. apply is_zero_spec in Ha as [s Hs].
  apply Prim2SF_inj. rewrite sub_spec, Hs. reflexivity.
Qed.

Context `{VectorChart3D.TrigLib}.

(** The origin of the 3D view stays at the center of the canvas under every
    rotation whose cosines and sines are finite numbers, for all finite
    vectors; its depth is a zero. *)
Theorem origin_projects_to_center
  (rotation : Rotation) (vecA vecB : list number) :
  all_finite (vecA ++ vecB) ->
  is_finite (VectorChart3D.Math_cos (pitch rotation * (Math_PI / 180))) = true ->
  is_finite (VectorChart3D.Math_sin (pitch rotation * (Math_PI / 180))) = true ->
  is_finite (VectorChart3D.Math_cos (yaw rotation * (Math_PI / 180))) = true ->
  is_finite (VectorChart3D.Math_sin (yaw rotation * (Math_PI / 180))) = true ->
  VectorChart3D.x (VectorChart3D.project rotation vecA vecB 0 0 0)
  = VectorChart3D.center
  /\ VectorChart3D.y (VectorChart3D.project rotation vecA vecB 0 0 0)
     = VectorChart3D.center
  /\ is_zero (VectorChart3D.z (VectorChart3D.project rotation vecA vecB 0 0 0))
     = true.
Proof.
  intros Hf CX SX CY SY.
  assert (Fs : is_finite (VectorChart3D.scale vecA vecB) = true).
  { destruct (scale3D_cases vecA vecB Hf)
      as [_ [[_ Hs] | [_ (ms & es & Hs)]]];
      rewrite is_finite_spec, Hs; reflexivity. }
  unfold VectorChart3D.project.
  cbn [VectorChart3D.x VectorChart3D.y VectorChart3D.z].
  set (cx := VectorChart3D.Math_cos (pitch rotation * (Math_PI / 180))) in *.
  set (sx := VectorChart3D.Math_sin (pitch rotation * (Math_PI / 180))) in *.
  set (cy := VectorChart3D.Math_cos (yaw rotation * (Math_PI / 180))) in *.
  set (sy := VectorChart3D.Math_sin (yaw rotation * (Math_PI / 180))) in *.
  assert (Z0 : is_zero 0 = true) by reflexivity.
  assert (X1 : is_zero (0 * cy - 0 * sy) = true)
    by (apply zero_sub; apply zero_mul; assumption).
  assert (Z1 : is_zero (0 * sy + 0 * cy) = true)
    by (apply zero_add; apply zero_mul; assumption).
  assert (Y2 : is_zero (0 * cx - (0 * sy + 0 * cy) * sx) = true)
    by (apply zero_sub; apply zero_mul; assumption).
  assert (Z2 : is_zero (0 * sx + (0 * sy + 0 * cy) * cx) = true)
    by (apply zero_add; apply zero_mul; assumption).
  repeat split.
  - apply center_add_zero. apply zero_mul; assumption.
  - apply center_sub_zero. apply zero_mul; assumption.
  - exact Z2.
Qed.

End Projection.

Section ProjectionWitness.
Import JS VectorChart.
Local Open Scope float_scope.

Lemma origin_projects_to_center_witness :
  VectorChart3D.x
    (@VectorChart3D.project trig_at_0 (rotation initial)
       [1; 2; 3] [3; 2; 1] 0 0 0)
  = VectorChart3D.center.
Proof.
  apply (@origin_projects_to_center trig_at_0 (rotation initial)
           [1; 2; 3] [3; 2; 1]);
    first [reflexivity | repeat constructor].
Defined.

End ProjectionWitness.

(** ** The rows of the fallback chart *)

Section FallbackRows.
Import JS JSString Fallback.
Local Open Scope float_scope.













End FallbackRows.

